(** * utf8console.h: the streaming UTF-8 decoder and the console scope guard

    A shallow embedding of [utf8con::utf8_on_wide_out] and
    [utf8con::con_transcoder], and the properties of both that the
    specification states. *)

From Stdlib Require Import ZArith List Bool Lia.
From Stdlib Require String.
Import String.StringSyntax.
Delimit Scope string_scope with string.
Import ListNotations.
Local Open Scope Z_scope.

(** ** Fixed-width integers

    Values are kept in [Z]; every conversion of the source is written out. *)

(** [uint32_t] arithmetic wraps modulo 2^32. *)
Definition to_uint32 (x : Z) : Z := x mod 2 ^ 32.

(** Conversion to [int] (32 bits, two's complement). *)
Definition to_int (x : Z) : Z := (x + 2 ^ 31) mod 2 ^ 32 - 2 ^ 31.

(** [(unsigned char)c]: the byte value of a [char] or [int]. *)
Definition to_uchar (x : Z) : Z := x mod 2 ^ 8.

(** [std::streambuf::traits_type::eof()]. *)
Definition eof : Z := -1.

(** ** The decoder, [class utf8_on_wide_out] *)

(** The wrapped [std::wstreambuf], an interface of the standard library:
    the state of a wide buffer with [sputc] and [pubsync] (each returns
    its result and the next state), [wtraits_type::eof()], and
    [sizeof(wtraits_type::char_type)], the width of [wchar_t] in bytes. *)
Class wide_streambuf := {
  wchar_size : Z;
  wstreambuf : Type;
  weof : Z;
  sputc : Z -> wstreambuf -> Z * wstreambuf;
  pubsync : wstreambuf -> Z * wstreambuf
}.

Section Decoder.

Context {W : wide_streambuf}.

(** What [m_out] points to: the wide buffer, and the wide units handed to
    its [sputc] so far, oldest first ([sent] is a history kept for the
    statements below; the source has no such field). *)
Record wide_out := mk_wide_out { dev : wstreambuf; sent : list Z }.

(** The data members. [point] has no initialiser in the source. *)
Record utf8_on_wide_out := mk_decoder {
  left : Z;            (* int left = -1 *)
  point : Z;           (* uint32_t point *)
  m_out : wide_out     (* std::wstreambuf *m_out *)
}.

(** [explicit utf8_on_wide_out(std::wstreambuf *wrapped)]; [indet] is
    whatever the storage of [point] holds. *)
Definition utf8_on_wide_out_ctor (wrapped : wide_out) (indet : Z) : utf8_on_wide_out :=
  {| left := -1; point := to_uint32 indet; m_out := wrapped |}.

(** [wtraits_type::to_char_type], applied to the argument of [output]: a
    value cut to the width of [wchar_t], kept as the unsigned bit pattern.
    The conversion of the argument to [int_type] that comes first cuts to
    a width that is no smaller, so it does not show. *)
Definition to_char_type (ch : Z) : Z := ch mod 2 ^ (8 * wchar_size).

(** [bool output(wtraits_type::int_type ch)]. *)
Definition output (ch : Z) (out : wide_out) : bool * wide_out :=
  let c := to_char_type ch in
  let '(r, d) := sputc c (dev out) in
  (negb (r =? weof), {| dev := d; sent := sent out ++ [c] |}).

(** [int sync()]. *)
Definition sync (this : utf8_on_wide_out) : Z * utf8_on_wide_out :=
  let '(r, d) := pubsync (dev (m_out this)) in
  (r, {| left := left this; point := point this;
         m_out := {| dev := d; sent := sent (m_out this) |} |}).

(** The [else if] chain of [output_raw] for a byte with its top bit set:
    the new [left] and [point]. *)
Definition classify (ch left point : Z) : Z * Z :=
  if (Z.land ch 0xC0 =? 0x80) && (0 <? left) then
    (left - 1, Z.lor (Z.land ch 0x3F) (to_uint32 (Z.shiftl point 6)))
  else if Z.land ch 0xE0 =? 0xC0 then (1, Z.land ch 0x1F)
  else if Z.land ch 0xF0 =? 0xE0 then (2, Z.land ch 0x0F)
  else if Z.land ch 0xF8 =? 0xF0 then (3, Z.land ch 0x07)
  else (-1, point).

(** The block under [if (left == 0)], after [left = -1]: [true] when the
    loop goes on to the next byte, [false] when it leaves through
    [break]. *)
Definition emit (point : Z) (out : wide_out) : bool * utf8_on_wide_out :=
  if (4 <=? wchar_size) || (point <=? 0xD7FF)
     || ((0xE000 <=? point) && (point <=? 0xFFFF)) then
    let '(ok, out) := output point out in
    (ok, mk_decoder (-1) point out)
  else if (0x10000 <=? point) && (point <=? 0x10FFFF) then
    let point := to_uint32 (point - 0x10000) in
    let '(ok, out) := output (to_uint32 (Z.shiftr point 10 + 0xD800)) out in
    if negb ok then (false, mk_decoder (-1) point out)
    else
      let '(ok, out) := output (to_uint32 (Z.land point 0x3FF + 0xDC00)) out in
      (ok, mk_decoder (-1) point out)
  else (true, mk_decoder (-1) point out).

(** One iteration of the [while] loop of [output_raw] on the byte [c].
    The record holds the locals [left] and [point], which shadow the
    members and are stored back on every way out of the loop. *)
Definition loop_body (c : Z) (st : utf8_on_wide_out) : bool * utf8_on_wide_out :=
  let ch := to_uchar c in
  if Z.land ch 0x80 =? 0 then
    let '(ok, out) := output ch (m_out st) in
    (ok, mk_decoder (-1) (point st) out)
  else
    let '(left, point) := classify ch (left st) (point st) in
    if left =? 0 then emit point (m_out st)
    else (true, mk_decoder left point (m_out st)).

(** The loop: [consumed] is [start - first]. *)
Fixpoint while_loop (buf : list Z) (consumed : Z) (st : utf8_on_wide_out)
  : Z * utf8_on_wide_out :=
  match buf with
  | [] => (consumed, st)
  | c :: rest =>
      let '(continue, st') := loop_body c st in
      if continue then while_loop rest (consumed + 1) st'
      else (consumed + 1, st')
  end.

(** [int output_raw(const char_type *start, const char_type *end)], the
    range given as the list of its [char]s. *)
Definition output_raw (buf : list Z) (this : utf8_on_wide_out)
  : Z * utf8_on_wide_out :=
  let '(n, st) := while_loop buf 0 this in (to_int n, st).

(** [int_type overflow(int_type ch)]. *)
Definition overflow (ch : Z) (this : utf8_on_wide_out) : Z * utf8_on_wide_out :=
  if negb (ch =? eof) then
    let c := to_uchar ch in
    if Z.land c 0x80 =? 0x00 then
      let '(ok, out) := output c (m_out this) in
      ((if ok then 0 else eof), mk_decoder (-1) (point this) out)
    else
      let '(n, this') := output_raw [c] this in
      ((if n =? 1 then 0 else eof), this')
  else (0, this).

(** [std::streamsize xsputn(const char_type *s, std::streamsize count)]. *)
Definition xsputn (s : list Z) (this : utf8_on_wide_out) : Z * utf8_on_wide_out :=
  output_raw s this.

(** A stream writing through the decoder: one [xsputn] per chunk. *)
Fixpoint feed (chunks : list (list Z)) (this : utf8_on_wide_out) : utf8_on_wide_out :=
  match chunks with
  | [] => this
  | s :: rest => feed rest (snd (xsputn s this))
  end.

End Decoder.


(** ** A wide buffer to run the decoder on *)

(** A buffer with room for [room] more units; [sputc] returns the unit, or
    the end-of-file value when the buffer is full. *)
Record bounded_buf := mk_bounded { room : nat; stored : list Z }.

Definition bounded_sputc (eof_value c : Z) (b : bounded_buf) : Z * bounded_buf :=
  match room b with
  | O => (eof_value, b)
  | S n => (c, {| room := n; stored := stored b ++ [c] |})
  end.

Definition bounded_pubsync (b : bounded_buf) : Z * bounded_buf := (0, b).

(** Such a buffer on a platform with a two-byte [wchar_t] ([WEOF] is
    [0xFFFF]) and on one with a four-byte [wchar_t]. *)
Definition bounded16 : wide_streambuf :=
  {| wchar_size := 2; wstreambuf := bounded_buf; weof := 0xFFFF;
     sputc := bounded_sputc 0xFFFF; pubsync := bounded_pubsync |}.

Definition bounded32 : wide_streambuf :=
  {| wchar_size := 4; wstreambuf := bounded_buf; weof := 0xFFFFFFFF;
     sputc := bounded_sputc 0xFFFFFFFF; pubsync := bounded_pubsync |}.

(** What a decoder's [m_out] points to on the two-byte platform, and such
    a buffer nothing was written to yet, with room for [n] units. *)
Definition wide16 (b : bounded_buf) (l : list Z) : @wide_out bounded16 :=
  @mk_wide_out bounded16 b l.

Definition fresh16 (n : nat) : @wide_out bounded16 := wide16 (mk_bounded n []) [].

(** The bytes of "Hello, " followed by U+4E16, U+754C and "!". *)
Definition hello : list Z :=
  [0x48; 0x65; 0x6C; 0x6C; 0x6F; 0x2C; 0x20; 0xE4; 0xB8; 0x96; 0xE7; 0x95; 0x8C; 0x21].

(** ** The scope guard, [class con_transcoder] *)

(** Addresses of [std::streambuf] objects; address [S i] is cell [i] of the
    heap and [0] is the null pointer. *)
Definition ptr := nat.
Definition nullptr : ptr := 0%nat.

(** A narrow buffer object, by its dynamic type: a [utf8_on_wide_out] with
    its [m_out] (an address of a wide buffer), or a buffer of any other
    class. The decoding fields of a [utf8_on_wide_out] are those of
    Section Decoder; the guard never reads them. *)
Inductive streambuf :=
| other_streambuf
| utf8_on_wide_out_obj (wrapped : ptr).

(** Translation mode of a C file, as set by [_setmode]. *)
Inductive file_mode := O_TEXT | O_BINARY | O_U16TEXT.

(** The process-wide state the guard works on. [prepare_calls] counts the
    runs of [prepare_console] and [synced] lists the buffers [pubsync] was
    called on, latest first; both are histories, not data of the source. *)
Record process := mk_process {
  heap : list streambuf;
  cout_rdbuf : ptr;            (* std::cout.rdbuf() *)
  cerr_rdbuf : ptr;            (* std::cerr.rdbuf() *)
  wcout_rdbuf : ptr;           (* std::wcout.rdbuf() *)
  wcerr_rdbuf : ptr;           (* std::wcerr.rdbuf() *)
  wcout_loc : String.string;          (* std::wcout.getloc().name() *)
  wcerr_loc : String.string;          (* std::wcerr.getloc().name() *)
  c_locale : String.string;           (* setlocale(LC_ALL, nullptr) *)
  stdout_mode : file_mode;
  stderr_mode : file_mode;
  prepared : bool;             (* static bool prepared, in the constructor *)
  prepare_calls : nat;
  synced : list ptr
}.

Definition set_cout_rdbuf (p : ptr) (ps : process) : process :=
  mk_process (heap ps) p (cerr_rdbuf ps) (wcout_rdbuf ps) (wcerr_rdbuf ps)
    (wcout_loc ps) (wcerr_loc ps) (c_locale ps) (stdout_mode ps) (stderr_mode ps)
    (prepared ps) (prepare_calls ps) (synced ps).

Definition set_cerr_rdbuf (p : ptr) (ps : process) : process :=
  mk_process (heap ps) (cout_rdbuf ps) p (wcout_rdbuf ps) (wcerr_rdbuf ps)
    (wcout_loc ps) (wcerr_loc ps) (c_locale ps) (stdout_mode ps) (stderr_mode ps)
    (prepared ps) (prepare_calls ps) (synced ps).

Definition set_prepared (b : bool) (ps : process) : process :=
  mk_process (heap ps) (cout_rdbuf ps) (cerr_rdbuf ps) (wcout_rdbuf ps) (wcerr_rdbuf ps)
    (wcout_loc ps) (wcerr_loc ps) (c_locale ps) (stdout_mode ps) (stderr_mode ps)
    b (prepare_calls ps) (synced ps).

(** [*p]: nothing at the null pointer or outside the heap. *)
Definition deref (h : list streambuf) (p : ptr) : option streambuf :=
  match p with
  | O => None
  | S i => nth_error h i
  end.

(** [dynamic_cast<utf8_on_wide_out*>(p)] as a truth value: false for the
    null pointer, undefined ([None]) for a pointer to no object. *)
Definition is_utf8_on_wide_out (h : list streambuf) (p : ptr) : option bool :=
  match p with
  | O => Some false
  | S _ =>
      match deref h p with
      | Some (utf8_on_wide_out_obj _) => Some true
      | Some other_streambuf => Some false
      | None => None
      end
  end.

(** [p->pubsync()]: undefined unless [p] points to an object. *)
Definition streambuf_pubsync (p : ptr) (ps : process) : option process :=
  match deref (heap ps) p with
  | Some _ =>
      Some (mk_process (heap ps) (cout_rdbuf ps) (cerr_rdbuf ps) (wcout_rdbuf ps)
              (wcerr_rdbuf ps) (wcout_loc ps) (wcerr_loc ps) (c_locale ps)
              (stdout_mode ps) (stderr_mode ps) (prepared ps) (prepare_calls ps)
              (p :: synced ps))
  | None => None
  end.

(** [new utf8_on_wide_out(wrapped)]: the address of the new object. *)
Definition new_utf8_on_wide_out (wrapped : ptr) (ps : process) : ptr * process :=
  (S (length (heap ps)),
   mk_process (heap ps ++ [utf8_on_wide_out_obj wrapped]) (cout_rdbuf ps) (cerr_rdbuf ps)
     (wcout_rdbuf ps) (wcerr_rdbuf ps) (wcout_loc ps) (wcerr_loc ps) (c_locale ps)
     (stdout_mode ps) (stderr_mode ps) (prepared ps) (prepare_calls ps) (synced ps)).

Notation "x <- e ;; k" := (match e with Some x => k | None => None end)
  (at level 61, e at next level, right associativity).
Notation "' p <- e ;; k" := (match e with Some p => k | None => None end)
  (at level 61, p pattern, e at next level, right associativity).

Section Guard.

(** [static constexpr bool translate]: true under [_WIN32]. *)
Variable translate : bool.

(** [void prepare_console()], the definition selected by [_WIN32]. *)
Definition prepare_console (ps : process) : process :=
  if translate then
    mk_process (heap ps) (cout_rdbuf ps) (cerr_rdbuf ps) (wcout_rdbuf ps)
      (wcerr_rdbuf ps) (wcout_loc ps) (wcerr_loc ps) (c_locale ps)
      O_U16TEXT O_U16TEXT (prepared ps) (S (prepare_calls ps)) (synced ps)
  else
    let curLocale := c_locale ps in
    mk_process (heap ps) (cout_rdbuf ps) (cerr_rdbuf ps) (wcout_rdbuf ps)
      (wcerr_rdbuf ps) curLocale curLocale (c_locale ps)
      (stdout_mode ps) (stderr_mode ps) (prepared ps) (S (prepare_calls ps))
      (synced ps).

(** The data members, both initialised with [{}]. *)
Record con_transcoder := mk_guard { m_coutBuf : ptr; m_cerrBuf : ptr }.

(** [con_transcoder()]; [None] where the source dereferences a pointer
    to no object. *)
Definition con_transcoder_ctor (ps : process) : option (con_transcoder * process) :=
  if negb translate then Some (mk_guard nullptr nullptr, ps)
  else
    let ps := if negb (prepared ps) then set_prepared true (prepare_console ps)
              else ps in
    '(m_coutBuf, ps) <-
      (is_dec <- is_utf8_on_wide_out (heap ps) (cout_rdbuf ps) ;;
       if negb is_dec then
         ps <- streambuf_pubsync (cout_rdbuf ps) ps ;;
         let '(d, ps) := new_utf8_on_wide_out (wcout_rdbuf ps) ps in
         Some (cout_rdbuf ps, set_cout_rdbuf d ps)
       else Some (nullptr, ps)) ;;
    '(m_cerrBuf, ps) <-
      (is_dec <- is_utf8_on_wide_out (heap ps) (cerr_rdbuf ps) ;;
       if negb is_dec then
         ps <- streambuf_pubsync (cerr_rdbuf ps) ps ;;
         let '(d, ps) := new_utf8_on_wide_out (wcerr_rdbuf ps) ps in
         Some (cerr_rdbuf ps, set_cerr_rdbuf d ps)
       else Some (nullptr, ps)) ;;
    Some (mk_guard m_coutBuf m_cerrBuf, ps).

(** [~con_transcoder()]. *)
Definition con_transcoder_dtor (this : con_transcoder) (ps : process) : process :=
  let ps := if negb (Nat.eqb (m_coutBuf this) nullptr)
            then set_cout_rdbuf (m_coutBuf this) ps else ps in
  if negb (Nat.eqb (m_cerrBuf this) nullptr)
  then set_cerr_rdbuf (m_cerrBuf this) ps else ps.

(** [con_transcoder(con_transcoder &&) = default]: each member is
    initialised from the same member of [other]; for a pointer that is a
    copy. The result is the new guard and [other] afterwards. *)
Definition con_transcoder_move_ctor (other : con_transcoder)
  : con_transcoder * con_transcoder :=
  (mk_guard (m_coutBuf other) (m_cerrBuf other), other).

(** [con_transcoder &operator=(con_transcoder &&) = default]: memberwise
    assignment. The result is [*this] and [other] afterwards. *)
Definition con_transcoder_move_assign (this other : con_transcoder)
  : con_transcoder * con_transcoder :=
  (mk_guard (m_coutBuf other) (m_cerrBuf other), other).

(** [con_transcoder make_utf8_output()], whose body is
    [return con_transcoder();]. Where the copy is elided (always from
    C++17 on) the returned object is the one constructed; where it is not,
    the temporary is constructed, the returned object is move-constructed
    from it and the temporary is destroyed. *)
Definition make_utf8_output (elided : bool) (ps : process)
  : option (con_transcoder * process) :=
  '(tmp, ps) <- con_transcoder_ctor ps ;;
  if elided then Some (tmp, ps)
  else
    let '(result, tmp) := con_transcoder_move_ctor tmp in
    Some (result, con_transcoder_dtor tmp ps).

(** A program over guards: the guards alive, by position, and what it
    does to them. A step on a position that holds no guard does
    nothing. *)
Inductive action :=
| Construct                       (* con_transcoder g; *)
| Destroy (i : nat)               (* the destructor of guard i *)
| MoveConstruct (i : nat)         (* con_transcoder h(std::move(g_i)); *)
| MoveAssign (i j : nat).         (* g_i = std::move(g_j); *)

Definition replace_nth (i : nat) (g : con_transcoder) (gs : list con_transcoder)
  : list con_transcoder :=
  firstn i gs ++ g :: skipn (S i) gs.

Definition remove_nth (i : nat) (gs : list con_transcoder) : list con_transcoder :=
  firstn i gs ++ skipn (S i) gs.

Definition step (a : action) (st : list con_transcoder * process)
  : option (list con_transcoder * process) :=
  let '(gs, ps) := st in
  match a with
  | Construct =>
      '(g, ps) <- con_transcoder_ctor ps ;; Some (gs ++ [g], ps)
  | Destroy i =>
      match nth_error gs i with
      | Some g => Some (remove_nth i gs, con_transcoder_dtor g ps)
      | None => Some st
      end
  | MoveConstruct i =>
      match nth_error gs i with
      | Some g =>
          let '(h, g) := con_transcoder_move_ctor g in
          Some (replace_nth i g gs ++ [h], ps)
      | None => Some st
      end
  | MoveAssign i j =>
      match nth_error gs i, nth_error gs j with
      | Some gi, Some gj =>
          let '(gi, gj) := con_transcoder_move_assign gi gj in
          Some (replace_nth i gi (replace_nth j gj gs), ps)
      | _, _ => Some st
      end
  end.

Fixpoint run (prog : list action) (st : list con_transcoder * process)
  : option (list con_transcoder * process) :=
  match prog with
  | [] => Some st
  | a :: rest => st <- step a st ;; run rest st
  end.

End Guard.

(** A process at start-up: two narrow and two wide standard buffers, the
    wide streams in the classic locale, nothing prepared. *)
Definition process_start : process :=
  mk_process [other_streambuf; other_streambuf] 1%nat 2%nat 1%nat 2%nat
    "C"%string "C"%string "en_US.UTF-8"%string O_TEXT O_TEXT false 0 [].

(** ** Vocabulary of the statements

    UTF-8 itself is no part of the source; the definitions below fix what
    the statements mean by an encoding and by the payload of a sequence. *)

(** The UTF-8 encoding of the code point [p] (RFC 3629, section 3). *)
Definition utf8_encode (p : Z) : list Z :=
  if p <? 0x80 then [p]
  else if p <? 0x800 then
    [Z.lor 0xC0 (Z.shiftr p 6); Z.lor 0x80 (Z.land p 0x3F)]
  else if p <? 0x10000 then
    [Z.lor 0xE0 (Z.shiftr p 12); Z.lor 0x80 (Z.land (Z.shiftr p 6) 0x3F);
     Z.lor 0x80 (Z.land p 0x3F)]
  else
    [Z.lor 0xF0 (Z.shiftr p 18); Z.lor 0x80 (Z.land (Z.shiftr p 12) 0x3F);
     Z.lor 0x80 (Z.land (Z.shiftr p 6) 0x3F); Z.lor 0x80 (Z.land p 0x3F)].

(** The surrogate pair of a code point beyond the BMP (UTF-16). *)
Definition high_surrogate (p : Z) : Z := Z.shiftr (p - 0x10000) 10 + 0xD800.
Definition low_surrogate (p : Z) : Z := Z.land (p - 0x10000) 0x3FF + 0xDC00.

(** The UTF-16 encoding of a code point (RFC 2781, section 2.1). *)
Definition utf16_encode (p : Z) : list Z :=
  if p <? 0x10000 then [p] else [high_surrogate p; low_surrogate p].

(** Unicode scalar values: the code points that are no surrogates. *)
Definition is_scalar (p : Z) : bool :=
  ((0 <=? p) && (p <=? 0xD7FF)) || ((0xE000 <=? p) && (p <=? 0x10FFFF)).

(** The wide units of a code point on a platform: the code point itself
    where [wchar_t] has four bytes or more, its UTF-16 encoding
    otherwise. *)
Definition wide_units (wchar_bytes p : Z) : list Z :=
  if 4 <=? wchar_bytes then [p] else utf16_encode p.

(** Byte classes, by value: [0xxxxxxx], [10xxxxxx], [11111xxx]. *)
Definition is_ascii (b : Z) : bool := (0 <=? b) && (b <? 0x80).
Definition is_cont (b : Z) : bool := (0x80 <=? b) && (b <? 0xC0).
Definition is_invalid_lead (b : Z) : bool := (0xF8 <=? b) && (b <? 0x100).

(** The number of continuation bytes a lead byte announces ([110xxxxx],
    [1110xxxx], [11110xxx]); [0] for a byte that is no lead. *)
Definition lead_need (b : Z) : Z :=
  if (0xC0 <=? b) && (b <? 0xE0) then 1
  else if (0xE0 <=? b) && (b <? 0xF0) then 2
  else if (0xF0 <=? b) && (b <? 0xF8) then 3
  else 0.

(** The payload bits of a lead byte: the bits below its marker. *)
Definition lead_bits (b : Z) : Z :=
  if (0xC0 <=? b) && (b <? 0xE0) then b mod 32
  else if (0xE0 <=? b) && (b <? 0xF0) then b mod 16
  else b mod 8.

(** The payload of a lead byte and the continuation bytes after it: six
    more bits per continuation byte. *)
Definition payload (lead : Z) (conts : list Z) : Z :=
  fold_left (fun v c => v * 64 + c mod 64) conts (lead_bits lead).

Section DecoderVocabulary.

Context {W : wide_streambuf}.

(** The decoder after the loop body ran on each byte of [bs] in turn. *)
Fixpoint steps (bs : list Z) (st : utf8_on_wide_out)
  : utf8_on_wide_out :=
  match bs with
  | [] => st
  | b :: rest => steps rest (snd (loop_body b st))
  end.

(** No iteration over [bs] left the loop: every write was accepted. *)
Fixpoint quiet (bs : list Z) (st : utf8_on_wide_out) : bool :=
  match bs with
  | [] => true
  | b :: rest => fst (loop_body b st) && quiet rest (snd (loop_body b st))
  end.

End DecoderVocabulary.

(** A sequence is in progress after the bytes [hist]: they end with a lead
    byte and fewer continuation bytes than it announces, [left] counts the
    missing ones and [point] is the payload so far. *)
Definition in_progress (hist : list Z) (left point : Z) : Prop :=
  exists pre lead conts,
    hist = pre ++ lead :: conts /\
    forallb is_cont conts = true /\
    left = lead_need lead - Z.of_nat (length conts) /\
    point = payload lead conts.

(** The invariant of the decoder between two bytes, [hist] being the bytes
    it has consumed (as [unsigned char]). *)
Definition decoder_inv {W : wide_streambuf} (hist : list Z)
  (st : utf8_on_wide_out) : Prop :=
  (left st = -1 \/ left st = 1 \/ left st = 2 \/ left st = 3) /\
  (0 < left st -> in_progress hist (left st) (point st)).

(** Both streams have a buffer object: the state the constructor is
    defined on. *)
Definition live_streams (ps : process) : Prop :=
  deref (heap ps) (cout_rdbuf ps) <> None /\
  deref (heap ps) (cerr_rdbuf ps) <> None.

(** Both streams have a buffer of their own, none of them a decoder: the
    state of a process that has no guard. *)
Definition plain_streams (ps : process) : Prop :=
  deref (heap ps) (cout_rdbuf ps) = Some other_streambuf /\
  deref (heap ps) (cerr_rdbuf ps) = Some other_streambuf.

(** [n] times in a row: a guard is constructed and destroyed. *)
Definition guard_cycles (n : nat) : list action :=
  concat (repeat [Construct; Destroy 0] n).

(** What the masks of [output_raw] compute on a byte. *)
Definition mask_table (b : Z) : bool :=
  Bool.eqb (Z.land b 0x80 =? 0) (b <? 0x80)
  && Bool.eqb (Z.land b 0xC0 =? 0x80) (is_cont b)
  && Bool.eqb (Z.land b 0xE0 =? 0xC0) ((0xC0 <=? b) && (b <? 0xE0))
  && Bool.eqb (Z.land b 0xF0 =? 0xE0) ((0xE0 <=? b) && (b <? 0xF0))
  && Bool.eqb (Z.land b 0xF8 =? 0xF0) ((0xF0 <=? b) && (b <? 0xF8))
  && (Z.land b 0x3F =? b mod 64) && (Z.land b 0x1F =? b mod 32)
  && (Z.land b 0x0F =? b mod 16) && (Z.land b 0x07 =? b mod 8)
  && (Z.lor 0x80 (b mod 64) =? 0x80 + b mod 64)
  && (Z.lor 0xC0 (b mod 32) =? 0xC0 + b mod 32)
  && (Z.lor 0xE0 (b mod 16) =? 0xE0 + b mod 16)
  && (Z.lor 0xF0 (b mod 8) =? 0xF0 + b mod 8).

(** A guard remembers, for each stream, nothing or a buffer object. *)
Definition sound_guard (h : list streambuf) (g : con_transcoder) : Prop :=
  (m_coutBuf g = nullptr \/ deref h (m_coutBuf g) <> None) /\
  (m_cerrBuf g = nullptr \/ deref h (m_cerrBuf g) <> None).

(** The invariant of a program over guards: the streams have buffers, the
    guards are sound, and [prepare_console] ran once if [prepared] is set
    and never otherwise. *)
Definition guard_inv (st : list con_transcoder * process) : Prop :=
  live_streams (snd st) /\
  Forall (sound_guard (heap (snd st))) (fst st) /\
  prepare_calls (snd st) = (if prepared (snd st) then 1 else 0)%nat.

(** * Properties *)

(** ** Bytes and machine arithmetic *)

Lemma forallb_below (n : nat) (P : Z -> bool) :
  forallb P (map Z.of_nat (seq 0 n)) = true ->
  forall x, 0 <= x < Z.of_nat n -> P x = true.
Proof.
  intros H x Hx. rewrite forallb_forall in H. apply H.
  apply in_map_iff. exists (Z.to_nat x). split; [lia|].
  apply in_seq. lia.
Qed.

Lemma mask_table_ok b : 0 <= b < 256 -> mask_table b = true.
Proof. apply (forallb_below 256). vm_compute. reflexivity. Qed.

Lemma byte_masks b :
  0 <= b < 256 ->
  (Z.land b 0x80 =? 0) = (b <? 0x80) /\
  (Z.land b 0xC0 =? 0x80) = is_cont b /\
  (Z.land b 0xE0 =? 0xC0) = ((0xC0 <=? b) && (b <? 0xE0)) /\
  (Z.land b 0xF0 =? 0xE0) = ((0xE0 <=? b) && (b <? 0xF0)) /\
  (Z.land b 0xF8 =? 0xF0) = ((0xF0 <=? b) && (b <? 0xF8)) /\
  Z.land b 0x3F = b mod 64 /\ Z.land b 0x1F = b mod 32 /\
  Z.land b 0x0F = b mod 16 /\ Z.land b 0x07 = b mod 8 /\
  Z.lor 0x80 (b mod 64) = 0x80 + b mod 64 /\
  Z.lor 0xC0 (b mod 32) = 0xC0 + b mod 32 /\
  Z.lor 0xE0 (b mod 16) = 0xE0 + b mod 16 /\
  Z.lor 0xF0 (b mod 8) = 0xF0 + b mod 8.
Proof.
  intros Hb. pose proof (mask_table_ok b Hb) as H. unfold mask_table in H.
  repeat (apply andb_prop in H; let H' := fresh "H" in destruct H as [H H']).
  repeat match goal with
         | H : Bool.eqb _ _ = true |- _ => apply Bool.eqb_prop in H
         | H : (_ =? _) = true |- _ => apply Z.eqb_eq in H
         end.
  repeat split; assumption.
Qed.

Ltac byte_facts b Hb :=
  destruct (byte_masks b Hb)
    as (M80 & MC0 & ME0 & MF0 & MF8 & L3F & L1F & L0F & L07 & O80 & OC0 & OE0 & OF0).

Lemma to_uchar_range c : 0 <= to_uchar c < 256.
Proof. unfold to_uchar. apply Z.mod_pos_bound. reflexivity. Qed.

Lemma to_uchar_small b : 0 <= b < 256 -> to_uchar b = b.
Proof. intros H. unfold to_uchar. apply Z.mod_small. exact H. Qed.

Lemma to_uchar_idem c : to_uchar (to_uchar c) = to_uchar c.
Proof. apply to_uchar_small, to_uchar_range. Qed.

Lemma to_int_small n : - 2 ^ 31 <= n < 2 ^ 31 -> to_int n = n.
Proof. intros H. unfold to_int. rewrite Z.mod_small; lia. Qed.

(** Six low bits and a multiple of 64 do not overlap. *)
Lemma lor_low6 a k : 0 <= a < 64 -> Z.lor a (64 * k) = a + 64 * k.
Proof.
  intros Ha.
  assert (Hland : Z.land a (64 * k) = 0).
  { apply Z.bits_inj'. intros n Hn. rewrite Z.land_spec, Z.bits_0.
    destruct (Z.ltb_spec n 6) as [Hlt | Hge].
    - replace (64 * k) with (k * 2 ^ 6) by lia.
      rewrite Z.mul_pow2_bits_low by lia. apply andb_false_r.
    - destruct (Z.eq_dec a 0) as [-> | Hnz]; [now rewrite Z.bits_0|].
      rewrite (Z.bits_above_log2 a n); [reflexivity | lia |].
      apply Z.log2_lt_pow2; [lia|].
      apply Z.lt_le_trans with (2 ^ 6); [lia|].
      apply Z.pow_le_mono_r; lia. }
  rewrite <- Z.lxor_lor by exact Hland.
  symmetry. apply Z.add_nocarry_lxor. exact Hland.
Qed.

(** The continuation step of [classify] without the bit operations. *)
Lemma fold_bits b point :
  0 <= b < 256 -> 0 <= point < 2 ^ 26 ->
  Z.lor (Z.land b 0x3F) (to_uint32 (Z.shiftl point 6)) = point * 64 + b mod 64.
Proof.
  intros Hb Hp. byte_facts b Hb.
  rewrite Z.shiftl_mul_pow2 by lia. unfold to_uint32.
  rewrite Z.mod_small by lia.
  rewrite L3F.
  replace (point * 2 ^ 6) with (64 * point) by lia.
  rewrite lor_low6; [lia|]. apply Z.mod_pos_bound. lia.
Qed.

(** ** One iteration of the loop, by class of byte *)

Section DecoderSteps.

Context {W : wide_streambuf}.

Lemma loop_body_uchar c (st : utf8_on_wide_out) : loop_body c st = loop_body (to_uchar c) st.
Proof. unfold loop_body. rewrite to_uchar_idem. reflexivity. Qed.

(** A [char] enters the decoder by its byte value only, whether [char] is
    signed or not; the statements below give bytes by their value in
    [0..255]. *)
Lemma output_raw_uchar buf (st : utf8_on_wide_out) :
  output_raw buf st = output_raw (map to_uchar buf) st.
Proof.
  unfold output_raw. generalize 0 as n. revert st.
  induction buf as [| c buf IH]; intros st n; cbn [map while_loop]; [reflexivity|].
  rewrite <- loop_body_uchar.
  destruct (loop_body c st) as [[|] st']; [apply IH | reflexivity].
Qed.

Lemma feed_uchar chunks (st : utf8_on_wide_out) :
  feed chunks st = feed (map (map to_uchar) chunks) st.
Proof.
  revert st. induction chunks as [| s chunks IH]; intros st; cbn [map feed];
    [reflexivity|].
  unfold xsputn. rewrite <- output_raw_uchar. apply IH.
Qed.

Lemma output_sent ch (out : wide_out) :
  sent (snd (output ch out)) = sent out ++ [to_char_type ch].
Proof.
  unfold output.
  destruct (sputc (to_char_type ch) (dev out)). reflexivity.
Qed.

Lemma loop_body_ascii b (st : utf8_on_wide_out) :
  is_ascii b = true ->
  loop_body b st =
    (fst (output b (m_out st)), mk_decoder (-1) (point st) (snd (output b (m_out st)))).
Proof.
  unfold is_ascii. intros H. apply andb_prop in H. destruct H as [H0 H1].
  apply Z.leb_le in H0. apply Z.ltb_lt in H1.
  assert (Hb : 0 <= b < 256) by lia. byte_facts b Hb.
  unfold loop_body. rewrite (to_uchar_small b Hb).
  rewrite M80. replace (b <? 128) with true by (symmetry; apply Z.ltb_lt; lia).
  destruct (output b (m_out st)). reflexivity.
Qed.

Lemma loop_body_lead b (st : utf8_on_wide_out) :
  0 < lead_need b ->
  loop_body b st = (true, mk_decoder (lead_need b) (lead_bits b) (m_out st)).
Proof.
  intros Hneed.
  assert (Hb : 0xC0 <= b < 0xF8).
  { unfold lead_need in Hneed.
    destruct (Z.leb_spec 0xC0 b), (Z.ltb_spec b 0xE0), (Z.leb_spec 0xE0 b),
      (Z.ltb_spec b 0xF0), (Z.leb_spec 0xF0 b), (Z.ltb_spec b 0xF8);
      simpl in Hneed; lia. }
  assert (Hb' : 0 <= b < 256) by lia. byte_facts b Hb'.
  unfold loop_body, classify. rewrite (to_uchar_small b Hb').
  rewrite M80, MC0, ME0, MF0, MF8, L1F, L0F, L07.
  unfold is_cont, lead_need, lead_bits.
  replace (b <? 128) with false by (symmetry; apply Z.ltb_ge; lia).
  replace (b <? 192) with false by (symmetry; apply Z.ltb_ge; lia).
  rewrite andb_false_r. cbn [andb].
  destruct (Z.leb_spec 0xC0 b), (Z.ltb_spec b 0xE0), (Z.leb_spec 0xE0 b),
    (Z.ltb_spec b 0xF0), (Z.leb_spec 0xF0 b), (Z.ltb_spec b 0xF8);
    cbn; try reflexivity; lia.
Qed.

Lemma loop_body_cont b (st : utf8_on_wide_out) :
  is_cont b = true -> 0 < left st -> 0 <= point st < 2 ^ 26 ->
  loop_body b st =
    if left st =? 1 then emit (point st * 64 + b mod 64) (m_out st)
    else (true, mk_decoder (left st - 1) (point st * 64 + b mod 64) (m_out st)).
Proof.
  intros Hc Hl Hp. pose proof Hc as Hc'. unfold is_cont in Hc'.
  apply andb_prop in Hc'. destruct Hc' as [H0 H1].
  apply Z.leb_le in H0. apply Z.ltb_lt in H1.
  assert (Hb : 0 <= b < 256) by lia. byte_facts b Hb.
  unfold loop_body, classify. rewrite (to_uchar_small b Hb).
  rewrite M80, MC0, Hc.
  replace (b <? 128) with false by (symmetry; apply Z.ltb_ge; lia).
  replace (0 <? left st) with true by (symmetry; apply Z.ltb_lt; lia).
  cbn [andb]. rewrite fold_bits by assumption.
  destruct (Z.eqb_spec (left st) 1) as [-> | Hne].
  - reflexivity.
  - replace (left st - 1 =? 0) with false by (symmetry; apply Z.eqb_neq; lia).
    reflexivity.
Qed.

Lemma loop_body_stray b (st : utf8_on_wide_out) :
  is_cont b = true -> left st <= 0 ->
  loop_body b st = (true, mk_decoder (-1) (point st) (m_out st)).
Proof.
  intros Hc Hl. pose proof Hc as Hc'. unfold is_cont in Hc'.
  apply andb_prop in Hc'. destruct Hc' as [H0 H1].
  apply Z.leb_le in H0. apply Z.ltb_lt in H1.
  assert (Hb : 0 <= b < 256) by lia. byte_facts b Hb.
  unfold loop_body, classify. rewrite (to_uchar_small b Hb).
  rewrite M80, MC0, ME0, MF0, MF8, Hc.
  replace (b <? 128) with false by (symmetry; apply Z.ltb_ge; lia).
  replace (0 <? left st) with false by (symmetry; apply Z.ltb_ge; lia).
  replace (192 <=? b) with false by (symmetry; apply Z.leb_gt; lia).
  replace (224 <=? b) with false by (symmetry; apply Z.leb_gt; lia).
  replace (240 <=? b) with false by (symmetry; apply Z.leb_gt; lia).
  reflexivity.
Qed.

Lemma loop_body_invalid b (st : utf8_on_wide_out) :
  is_invalid_lead b = true ->
  loop_body b st = (true, mk_decoder (-1) (point st) (m_out st)).
Proof.
  intros Hi. unfold is_invalid_lead in Hi.
  apply andb_prop in Hi. destruct Hi as [H0 H1].
  apply Z.leb_le in H0. apply Z.ltb_lt in H1.
  assert (Hb : 0 <= b < 256) by lia. byte_facts b Hb.
  unfold loop_body, classify. rewrite (to_uchar_small b Hb).
  rewrite M80, MC0, ME0, MF0, MF8. unfold is_cont.
  replace (b <? 128) with false by (symmetry; apply Z.ltb_ge; lia).
  replace (b <? 192) with false by (symmetry; apply Z.ltb_ge; lia).
  replace (b <? 224) with false by (symmetry; apply Z.ltb_ge; lia).
  replace (b <? 240) with false by (symmetry; apply Z.ltb_ge; lia).
  replace (b <? 248) with false by (symmetry; apply Z.ltb_ge; lia).
  rewrite !andb_false_r. reflexivity.
Qed.

(** Every byte falls in one of the five classes. *)
Lemma byte_class b :
  0 <= b < 256 ->
  is_ascii b = true \/ is_cont b = true \/ 0 < lead_need b \/ is_invalid_lead b = true.
Proof.
  intros Hb. unfold is_ascii, is_cont, lead_need, is_invalid_lead.
  destruct (Z.ltb_spec b 0x80); [left; apply andb_true_intro; split; [apply Z.leb_le|]; lia || reflexivity|].
  right.
  destruct (Z.ltb_spec b 0xC0); [left; replace (128 <=? b) with true by (symmetry; apply Z.leb_le; lia); reflexivity|].
  right.
  destruct (Z.ltb_spec b 0xE0), (Z.ltb_spec b 0xF0), (Z.ltb_spec b 0xF8),
    (Z.leb_spec 0xC0 b), (Z.leb_spec 0xE0 b), (Z.leb_spec 0xF0 b), (Z.leb_spec 0xF8 b), (Z.ltb_spec b 0x100);
    cbn; try lia; auto.
Qed.

(** ** The loop and successive calls *)

Lemma quiet_app a b (st : utf8_on_wide_out) :
  quiet (a ++ b) st = quiet a st && quiet b (steps a st).
Proof.
  revert st. induction a as [| x a IH]; intros st; cbn; [reflexivity|].
  rewrite IH. apply andb_assoc.
Qed.

Lemma steps_app a b (st : utf8_on_wide_out) : steps (a ++ b) st = steps b (steps a st).
Proof. revert st. induction a as [| x a IH]; intros st; cbn; auto. Qed.

Lemma steps_snoc pre c (st : utf8_on_wide_out) :
  steps (pre ++ [c]) st = snd (loop_body c (steps pre st)).
Proof. rewrite steps_app. reflexivity. Qed.

(** While no write is refused the loop consumes the whole buffer. *)
Lemma while_loop_quiet bs n (st : utf8_on_wide_out) :
  quiet bs st = true ->
  while_loop bs n st = (n + Z.of_nat (length bs), steps bs st).
Proof.
  revert n st. induction bs as [| b bs IH]; intros n st Hq.
  - cbn. f_equal. lia.
  - cbn in Hq. apply andb_prop in Hq. destruct Hq as [Hb Hq].
    cbn [while_loop steps].
    destruct (loop_body b st) as [c st'] eqn:E. cbn in Hb, Hq. subst c.
    cbn [snd]. rewrite IH by exact Hq. f_equal. cbn [length]. lia.
Qed.

(** The loop stops at the first refused write, after counting its byte. *)
Lemma while_loop_break pre c post n (st : utf8_on_wide_out) :
  quiet pre st = true ->
  fst (loop_body c (steps pre st)) = false ->
  while_loop (pre ++ c :: post) n st =
    (n + Z.of_nat (length pre) + 1, snd (loop_body c (steps pre st))).
Proof.
  revert n st. induction pre as [| b pre IH]; intros n st Hq Hc.
  - cbn in *. destruct (loop_body c st) as [k st'] eqn:E. cbn in Hc. subst k.
    cbn. f_equal. lia.
  - cbn in Hq. apply andb_prop in Hq. destruct Hq as [Hb Hq].
    cbn [app while_loop steps] in *.
    destruct (loop_body b st) as [k st'] eqn:E. cbn in Hb, Hq, Hc. subst k.
    cbn [snd]. rewrite IH by assumption. f_equal. cbn [length]. lia.
Qed.

(** One call on a buffer whose only write, if any, comes with its last
    byte. *)
Lemma while_loop_last pre c n (st : utf8_on_wide_out) :
  quiet pre st = true ->
  while_loop (pre ++ [c]) n st =
    (n + Z.of_nat (length pre) + 1, steps (pre ++ [c]) st).
Proof.
  intros Hq. rewrite steps_app. cbn [steps].
  destruct (fst (loop_body c (steps pre st))) eqn:E.
  - rewrite while_loop_quiet.
    + rewrite steps_app. cbn [steps]. f_equal. rewrite length_app. cbn. lia.
    + rewrite quiet_app, Hq. cbn. rewrite E. reflexivity.
  - apply while_loop_break; assumption.
Qed.

Lemma output_raw_state_last pre c (st : utf8_on_wide_out) :
  quiet pre st = true ->
  snd (output_raw (pre ++ [c]) st) = steps (pre ++ [c]) st.
Proof.
  intros Hq. unfold output_raw. rewrite while_loop_last by exact Hq.
  reflexivity.
Qed.

Lemma output_raw_state_quiet bs (st : utf8_on_wide_out) :
  quiet bs st = true -> snd (output_raw bs st) = steps bs st.
Proof.
  intros Hq. unfold output_raw. rewrite while_loop_quiet by exact Hq.
  reflexivity.
Qed.

(** However the bytes are cut into calls, the decoder ends where the loop
    body run byte by byte ends, as long as no write before the last byte
    is refused. *)
Lemma feed_quiet chunks (st : utf8_on_wide_out) :
  quiet (concat chunks) st = true -> feed chunks st = steps (concat chunks) st.
Proof.
  revert st. induction chunks as [| s chunks IH]; intros st Hq; [reflexivity|].
  cbn [concat] in *. rewrite quiet_app in Hq. apply andb_prop in Hq.
  destruct Hq as [Hs Hq]. cbn [feed]. unfold xsputn.
  rewrite output_raw_state_quiet by exact Hs. rewrite steps_app. apply IH, Hq.
Qed.

Lemma feed_last chunks pre c (st : utf8_on_wide_out) :
  concat chunks = pre ++ [c] -> quiet pre st = true ->
  feed chunks st = steps (pre ++ [c]) st.
Proof.
  revert st pre. induction chunks as [| s chunks IH]; intros st pre Hc Hq.
  - cbn in Hc. destruct pre; discriminate.
  - cbn [concat] in Hc. cbn [feed]. unfold xsputn.
    destruct (concat chunks) as [| x l] eqn:Erest using rev_ind.
    + rewrite app_nil_r in Hc. subst s.
      rewrite output_raw_state_last by exact Hq.
      rewrite (feed_quiet chunks); rewrite Erest; reflexivity.
    + clear IHl. rewrite app_assoc in Hc. apply app_inj_tail in Hc.
      destruct Hc as [Hpre ->]. subst pre.
      rewrite quiet_app in Hq. apply andb_prop in Hq. destruct Hq as [Hs Hl].
      rewrite output_raw_state_quiet by exact Hs.
      rewrite (IH _ l); [| reflexivity | exact Hl].
      rewrite <- steps_app, app_assoc. reflexivity.
Qed.

(** ** Multi-byte sequences *)

Lemma lead_need_range b : 0 < lead_need b -> 0xC0 <= b < 0xF8 /\ lead_need b <= 3.
Proof.
  unfold lead_need.
  destruct (Z.leb_spec 0xC0 b), (Z.ltb_spec b 0xE0), (Z.leb_spec 0xE0 b),
    (Z.ltb_spec b 0xF0), (Z.leb_spec 0xF0 b), (Z.ltb_spec b 0xF8); cbn; lia.
Qed.

Lemma lead_bits_range b : 0 <= lead_bits b < 32.
Proof.
  unfold lead_bits.
  destruct ((0xC0 <=? b) && (b <? 0xE0)); [|destruct ((0xE0 <=? b) && (b <? 0xF0))].
  - apply Z.mod_pos_bound. lia.
  - pose proof (Z.mod_pos_bound b 16). lia.
  - pose proof (Z.mod_pos_bound b 8). lia.
Qed.

Lemma payload_snoc lead conts c :
  payload lead (conts ++ [c]) = payload lead conts * 64 + c mod 64.
Proof. unfold payload. rewrite fold_left_app. reflexivity. Qed.

Lemma payload_range lead conts :
  0 <= payload lead conts < 2 ^ (5 + 6 * Z.of_nat (length conts)).
Proof.
  induction conts as [| c conts IH] using rev_ind.
  - cbn. apply lead_bits_range.
  - rewrite payload_snoc, length_app. cbn [length].
    replace (5 + 6 * Z.of_nat (length conts + 1))
      with (5 + 6 * Z.of_nat (length conts) + 6) by lia.
    rewrite Z.pow_add_r by lia.
    pose proof (Z.mod_pos_bound c 64). change (2 ^ 6) with 64. nia.
Qed.

Lemma payload_small lead conts :
  (length conts <= 3)%nat -> 0 <= payload lead conts < 2 ^ 26.
Proof.
  intros Hlen. pose proof (payload_range lead conts) as H.
  split; [lia|]. eapply Z.lt_le_trans; [apply H|].
  apply Z.pow_le_mono_r; lia.
Qed.

(** A lead byte and fewer continuation bytes than it announces: nothing is
    written, and the decoder holds what is missing and the payload. *)
Lemma partial_sequence lead conts (st : utf8_on_wide_out) :
  0 < lead_need lead -> forallb is_cont conts = true ->
  Z.of_nat (length conts) < lead_need lead ->
  quiet (lead :: conts) st = true /\
  steps (lead :: conts) st =
    mk_decoder (lead_need lead - Z.of_nat (length conts)) (payload lead conts) (m_out st).
Proof.
  intros Hneed. pose proof (lead_need_range lead Hneed) as [_ H3].
  induction conts as [| c conts IH] using rev_ind; intros Hc Hlen.
  - cbn. rewrite loop_body_lead by exact Hneed. cbn. split; [reflexivity|].
    f_equal. lia.
  - rewrite forallb_app in Hc. apply andb_prop in Hc. destruct Hc as [Hcs Hc].
    cbn in Hc. rewrite andb_true_r in Hc.
    rewrite length_app in Hlen |- *. cbn [length] in Hlen |- *.
    destruct IH as [IHq IHs]; [exact Hcs | lia |].
    change (lead :: conts ++ [c]) with ((lead :: conts) ++ [c]).
    rewrite quiet_app, steps_app, IHq, IHs. cbn [quiet steps andb].
    rewrite loop_body_cont; cbn [left point m_out];
      [| exact Hc | lia | apply payload_small; lia].
    replace (lead_need lead - Z.of_nat (length conts) =? 1) with false
      by (symmetry; apply Z.eqb_neq; lia).
    cbn. split; [reflexivity|]. rewrite payload_snoc. f_equal. lia.
Qed.

(** With the last continuation byte the decoder takes the emission
    block on the payload. *)
Lemma complete_sequence lead conts (st : utf8_on_wide_out) :
  0 < lead_need lead -> forallb is_cont conts = true ->
  Z.of_nat (length conts) = lead_need lead ->
  exists init last,
    conts = init ++ [last] /\
    quiet (lead :: init) st = true /\
    m_out (steps (lead :: init) st) = m_out st /\
    loop_body last (steps (lead :: init) st) = emit (payload lead conts) (m_out st).
Proof.
  intros Hneed Hc Hlen. pose proof (lead_need_range lead Hneed) as [_ H3].
  destruct conts as [| c conts] using rev_ind; [cbn in Hlen; lia|]. clear IHconts.
  exists conts, c. split; [reflexivity|].
  rewrite forallb_app in Hc. apply andb_prop in Hc. destruct Hc as [Hcs Hc].
  cbn in Hc. rewrite andb_true_r in Hc.
  rewrite length_app in Hlen. cbn [length] in Hlen.
  destruct (partial_sequence lead conts st Hneed Hcs) as [Hq Hs]; [lia|].
  rewrite Hq, Hs. cbn [m_out]. repeat split.
  rewrite loop_body_cont; cbn [left point m_out];
    [| exact Hc | lia | apply payload_small; lia].
  replace (lead_need lead - Z.of_nat (length conts) =? 1) with true
    by (symmetry; apply Z.eqb_eq; lia).
  rewrite payload_snoc. reflexivity.
Qed.

(** One call on a complete sequence. *)
Lemma output_raw_sequence lead conts (st : utf8_on_wide_out) :
  0 < lead_need lead -> forallb is_cont conts = true ->
  Z.of_nat (length conts) = lead_need lead ->
  output_raw (lead :: conts) st =
    (1 + lead_need lead, snd (emit (payload lead conts) (m_out st))).
Proof.
  intros Hneed Hc Hlen. pose proof (lead_need_range lead Hneed) as [_ H3].
  destruct (complete_sequence lead conts st Hneed Hc Hlen)
    as (init & last & -> & Hq & _ & Hlast).
  unfold output_raw.
  change (lead :: init ++ [last]) with ((lead :: init) ++ [last]).
  rewrite while_loop_last by exact Hq. rewrite steps_snoc, Hlast.
  rewrite length_app in Hlen. cbn [length] in Hlen |- *.
  f_equal. rewrite to_int_small; lia.
Qed.

(** A complete sequence cut into calls in any way. *)
Lemma feed_sequence chunks lead conts (st : utf8_on_wide_out) :
  0 < lead_need lead -> forallb is_cont conts = true ->
  Z.of_nat (length conts) = lead_need lead ->
  concat chunks = lead :: conts ->
  feed chunks st = snd (emit (payload lead conts) (m_out st)).
Proof.
  intros Hneed Hc Hlen Hcat.
  destruct (complete_sequence lead conts st Hneed Hc Hlen)
    as (init & last & -> & Hq & _ & Hlast).
  rewrite (feed_last chunks (lead :: init) last); [| exact Hcat | exact Hq].
  rewrite steps_snoc, Hlast. reflexivity.
Qed.

(** The bytes of an encoding, without the bit operations. *)
Lemma enc_cont y :
  Z.lor 0x80 (Z.land y 0x3F) = 0x80 + y mod 64.
Proof.
  change 0x3F with (Z.ones 6). rewrite Z.land_ones by lia. change (2 ^ 6) with 64.
  assert (Hr : 0 <= y mod 64 < 256) by (pose proof (Z.mod_pos_bound y 64); lia).
  byte_facts (y mod 64) Hr. rewrite Z.mod_mod in O80 by lia. exact O80.
Qed.

Lemma enc_cont_is_cont y : is_cont (0x80 + y mod 64) = true.
Proof.
  pose proof (Z.mod_pos_bound y 64). unfold is_cont.
  apply andb_true_intro. split; [apply Z.leb_le | apply Z.ltb_lt]; lia.
Qed.

Lemma enc_cont_bits y : (0x80 + y mod 64) mod 64 = y mod 64.
Proof.
  replace (0x80 + y mod 64) with (y mod 64 + 2 * 64) by lia.
  rewrite Z.mod_add by lia. apply Z.mod_mod. lia.
Qed.

Lemma enc_lead x :
  (0 <= x < 32 -> Z.lor 0xC0 x = 0xC0 + x) /\
  (0 <= x < 16 -> Z.lor 0xE0 x = 0xE0 + x) /\
  (0 <= x < 8 -> Z.lor 0xF0 x = 0xF0 + x).
Proof.
  repeat split; intros Hx;
    (assert (Hb : 0 <= x < 256) by lia); byte_facts x Hb;
    rewrite Z.mod_small in * by lia; assumption.
Qed.

Lemma lead_of_encoding x :
  (0 <= x < 32 -> lead_need (0xC0 + x) = 1 /\ lead_bits (0xC0 + x) = x) /\
  (0 <= x < 16 -> lead_need (0xE0 + x) = 2 /\ lead_bits (0xE0 + x) = x) /\
  (0 <= x < 8 -> lead_need (0xF0 + x) = 3 /\ lead_bits (0xF0 + x) = x).
Proof.
  unfold lead_need, lead_bits. repeat split; intros;
    repeat match goal with
           | |- context [?a <=? ?b] => destruct (Z.leb_spec a b)
           | |- context [?a <? ?b] => destruct (Z.ltb_spec a b)
           end; cbn [andb]; try lia; Z.div_mod_to_equations; lia.
Qed.

(** An encoding of two bytes or more is a lead byte and the continuation
    bytes it announces, and its payload is the code point. *)
Lemma encode_sequence p :
  0x80 <= p < 0x200000 ->
  exists lead conts,
    utf8_encode p = lead :: conts /\ 0 < lead_need lead /\
    forallb is_cont conts = true /\
    Z.of_nat (length conts) = lead_need lead /\ payload lead conts = p.
Proof.
  intros Hp. unfold utf8_encode.
  replace (p <? 0x80) with false by (symmetry; apply Z.ltb_ge; lia).
  rewrite !enc_cont, !Z.shiftr_div_pow2 by lia.
  change (2 ^ 6) with 64. change (2 ^ 12) with 4096. change (2 ^ 18) with 262144.
  destruct (Z.ltb_spec p 0x800); [| destruct (Z.ltb_spec p 0x10000)].
  - assert (Hx : 0 <= p / 64 < 32)
      by (split; [apply Z.div_pos | apply Z.div_lt_upper_bound]; lia).
    rewrite (proj1 (enc_lead (p / 64)) Hx).
    destruct (proj1 (lead_of_encoding (p / 64)) Hx) as [Hn Hbits].
    eexists _, _. split; [reflexivity|]. rewrite Hn.
    split; [lia|]. split; [cbn [forallb]; now rewrite !enc_cont_is_cont|]. split; [reflexivity|].
    unfold payload. cbn [fold_left]. rewrite Hbits, enc_cont_bits.
    Z.div_mod_to_equations. lia.
  - assert (Hx : 0 <= p / 4096 < 16)
      by (split; [apply Z.div_pos | apply Z.div_lt_upper_bound]; lia).
    rewrite (proj1 (proj2 (enc_lead (p / 4096))) Hx).
    destruct (proj1 (proj2 (lead_of_encoding (p / 4096))) Hx) as [Hn Hbits].
    eexists _, _. split; [reflexivity|]. rewrite Hn.
    split; [lia|]. split; [cbn [forallb]; now rewrite !enc_cont_is_cont|]. split; [reflexivity|].
    unfold payload. cbn [fold_left]. rewrite Hbits, !enc_cont_bits.
    Z.div_mod_to_equations. lia.
  - assert (Hx : 0 <= p / 262144 < 8)
      by (split; [apply Z.div_pos | apply Z.div_lt_upper_bound]; lia).
    rewrite (proj2 (proj2 (enc_lead (p / 262144))) Hx).
    destruct (proj2 (proj2 (lead_of_encoding (p / 262144))) Hx) as [Hn Hbits].
    eexists _, _. split; [reflexivity|]. rewrite Hn.
    split; [lia|]. split; [cbn [forallb]; now rewrite !enc_cont_is_cont|]. split; [reflexivity|].
    unfold payload. cbn [fold_left]. rewrite Hbits, !enc_cont_bits.
    Z.div_mod_to_equations. lia.
Qed.

(** ** The emission block *)

Lemma to_char_type_small v :
  2 <= wchar_size -> 0 <= v < 2 ^ 16 -> to_char_type v = v.
Proof.
  intros Hw Hv. unfold to_char_type. apply Z.mod_small.
  split; [lia|]. apply Z.lt_le_trans with (2 ^ 16); [lia|].
  apply Z.pow_le_mono_r; lia.
Qed.

Lemma to_char_type_wide v :
  4 <= wchar_size -> 0 <= v < 2 ^ 32 -> to_char_type v = v.
Proof.
  intros Hw Hv. unfold to_char_type. apply Z.mod_small.
  split; [lia|]. apply Z.lt_le_trans with (2 ^ 32); [lia|].
  apply Z.pow_le_mono_r; lia.
Qed.

Lemma emit_single v (out : wide_out) :
  4 <= wchar_size \/ v <= 0xD7FF \/ 0xE000 <= v <= 0xFFFF ->
  emit v out = (fst (output v out), mk_decoder (-1) v (snd (output v out))).
Proof.
  intros H. unfold emit.
  replace ((4 <=? wchar_size) || (v <=? 0xD7FF) || ((0xE000 <=? v) && (v <=? 0xFFFF)))
    with true.
  - destruct (output v out). reflexivity.
  - symmetry. destruct (Z.leb_spec 4 wchar_size), (Z.leb_spec v 0xD7FF),
      (Z.leb_spec 0xE000 v), (Z.leb_spec v 0xFFFF); cbn; try reflexivity; lia.
Qed.

Lemma surrogate_range v :
  0x10000 <= v <= 0x10FFFF ->
  0xD800 <= high_surrogate v <= 0xDBFF /\ 0xDC00 <= low_surrogate v <= 0xDFFF.
Proof.
  intros Hv. unfold high_surrogate, low_surrogate.
  rewrite Z.shiftr_div_pow2 by lia. change 0x3FF with (Z.ones 10).
  rewrite Z.land_ones by lia. change (2 ^ 10) with 1024.
  Z.div_mod_to_equations. lia.
Qed.

Lemma emit_pair v (out : wide_out) :
  wchar_size < 4 -> 0x10000 <= v <= 0x10FFFF ->
  emit v out =
    if fst (output (high_surrogate v) out) then
      (fst (output (low_surrogate v) (snd (output (high_surrogate v) out))),
       mk_decoder (-1) (v - 0x10000)
         (snd (output (low_surrogate v) (snd (output (high_surrogate v) out)))))
    else (false, mk_decoder (-1) (v - 0x10000) (snd (output (high_surrogate v) out))).
Proof.
  intros Hw Hv. pose proof (surrogate_range v Hv) as [Hh Hl].
  unfold emit.
  replace ((4 <=? wchar_size) || (v <=? 0xD7FF) || ((0xE000 <=? v) && (v <=? 0xFFFF)))
    with false
    by (symmetry; destruct (Z.leb_spec 4 wchar_size), (Z.leb_spec v 0xD7FF),
          (Z.leb_spec 0xE000 v), (Z.leb_spec v 0xFFFF); cbn; try reflexivity; lia).
  replace ((0x10000 <=? v) && (v <=? 0x10FFFF)) with true
    by (symmetry; apply andb_true_intro; split; apply Z.leb_le; lia).
  assert (E : to_uint32 (v - 0x10000) = v - 0x10000)
    by (unfold to_uint32; apply Z.mod_small; lia).
  rewrite E. fold (high_surrogate v). fold (low_surrogate v).
  replace (to_uint32 (high_surrogate v)) with (high_surrogate v)
    by (unfold to_uint32; symmetry; apply Z.mod_small; lia).
  replace (to_uint32 (low_surrogate v)) with (low_surrogate v)
    by (unfold to_uint32; symmetry; apply Z.mod_small; lia).
  destruct (output (high_surrogate v) out) as [ok1 out1]. cbn [fst snd].
  destruct ok1; cbn [negb]; [| reflexivity].
  destruct (output (low_surrogate v) out1). reflexivity.
Qed.

Lemma emit_drop v (out : wide_out) :
  wchar_size < 4 -> 0xD800 <= v <= 0xDFFF \/ 0x10FFFF < v ->
  emit v out = (true, mk_decoder (-1) v out).
Proof.
  intros Hw Hv. unfold emit.
  destruct (Z.leb_spec 4 wchar_size), (Z.leb_spec v 0xD7FF),
    (Z.leb_spec 0xE000 v), (Z.leb_spec v 0xFFFF), (Z.leb_spec 0x10000 v),
    (Z.leb_spec v 0x10FFFF); cbn; try reflexivity; lia.
Qed.

(** ** Well-formed input, from any state of the decoder *)

(** The encoding of a BMP code point, cut into calls in any way: the one
    unit [p] is handed to the wide buffer. *)
Lemma feed_bmp chunks p (st : utf8_on_wide_out) :
  2 <= wchar_size -> 0 <= p <= 0xD7FF \/ 0xE000 <= p <= 0xFFFF ->
  concat chunks = utf8_encode p ->
  left (feed chunks st) = -1 /\
  m_out (feed chunks st) = snd (output p (m_out st)) /\
  sent (m_out (feed chunks st)) = sent (m_out st) ++ [p].
Proof.
  intros Hw Hp Hcat.
  assert (Hsent : sent (snd (output p (m_out st))) = sent (m_out st) ++ [p])
    by (rewrite output_sent, to_char_type_small by lia; reflexivity).
  destruct (Z.ltb_spec p 0x80) as [Hlt | Hge].
  - assert (Henc : utf8_encode p = [p])
      by (unfold utf8_encode; replace (p <? 0x80) with true
            by (symmetry; apply Z.ltb_lt; lia); reflexivity).
    rewrite Henc in Hcat.
    rewrite (feed_last chunks [] p st Hcat eq_refl).
    cbn [app steps]. rewrite loop_body_ascii
      by (unfold is_ascii; apply andb_true_intro; split;
          [apply Z.leb_le | apply Z.ltb_lt]; lia).
    cbn [snd left m_out]. auto.
  - destruct (encode_sequence p) as (lead & conts & Henc & Hneed & Hc & Hlen & Hpay); [lia|].
    rewrite Henc in Hcat.
    rewrite (feed_sequence chunks lead conts st Hneed Hc Hlen Hcat), Hpay.
    rewrite emit_single by lia. cbn [snd left m_out]. auto.
Qed.

(** The encoding of a code point beyond the BMP on a narrow [wchar_t],
    cut into calls in any way. *)
Lemma feed_supplementary chunks p (st : utf8_on_wide_out) :
  wchar_size < 4 -> 0x10000 <= p <= 0x10FFFF ->
  concat chunks = utf8_encode p ->
  feed chunks st = snd (emit p (m_out st)).
Proof.
  intros Hw Hp Hcat.
  destruct (encode_sequence p) as (lead & conts & Henc & Hneed & Hc & Hlen & Hpay); [lia|].
  rewrite Henc in Hcat.
  rewrite (feed_sequence chunks lead conts st Hneed Hc Hlen Hcat), Hpay. reflexivity.
Qed.

Lemma forallb_firstn {A} (f : A -> bool) k l :
  forallb f l = true -> forallb f (firstn k l) = true.
Proof.
  revert k. induction l as [| x l IH]; intros [| k] H; cbn in *; try reflexivity.
  apply andb_prop in H. destruct H as [-> H]. cbn. apply IH, H.
Qed.

(** Any proper prefix of a sequence, cut into calls in any way, leaves the
    wide buffer as it was. *)
Lemma feed_prefix chunks lead conts k (st : utf8_on_wide_out) :
  0 < lead_need lead -> forallb is_cont conts = true ->
  Z.of_nat (length conts) = lead_need lead ->
  (k <= length conts)%nat ->
  concat chunks = firstn k (lead :: conts) ->
  m_out (feed chunks st) = m_out st.
Proof.
  intros Hneed Hc Hlen Hk Hcat.
  destruct k as [| k].
  - cbn in Hcat. rewrite feed_quiet; rewrite Hcat; reflexivity.
  - cbn [firstn] in Hcat.
    destruct (partial_sequence lead (firstn k conts) st Hneed) as [Hq Hs].
    + apply forallb_firstn, Hc.
    + rewrite length_firstn. lia.
    + rewrite feed_quiet; rewrite Hcat; [| exact Hq]. rewrite Hs. reflexivity.
Qed.

(** On a [wchar_t] of four bytes or more every encoding of two bytes or
    more yields its code point as one unit. *)
Lemma feed_wide chunks p (st : utf8_on_wide_out) :
  4 <= wchar_size -> 0x80 <= p < 0x200000 ->
  concat chunks = utf8_encode p ->
  left (feed chunks st) = -1 /\
  sent (m_out (feed chunks st)) = sent (m_out st) ++ [p].
Proof.
  intros Hw Hp Hcat.
  destruct (encode_sequence p) as (lead & conts & Henc & Hneed & Hc & Hlen & Hpay); [lia|].
  rewrite Henc in Hcat.
  rewrite (feed_sequence chunks lead conts st Hneed Hc Hlen Hcat), Hpay.
  rewrite emit_single by lia. cbn [snd left m_out].
  rewrite output_sent, to_char_type_wide by lia. auto.
Qed.

Lemma emit_left v (out : wide_out) : left (snd (emit v out)) = -1.
Proof.
  unfold emit.
  destruct ((4 <=? wchar_size) || (v <=? 0xD7FF) || ((0xE000 <=? v) && (v <=? 0xFFFF))).
  - destruct (output v out). reflexivity.
  - destruct ((0x10000 <=? v) && (v <=? 0x10FFFF)); [| reflexivity].
    destruct (output _ out) as [[|] out1]; cbn [negb]; [| reflexivity].
    destruct (output _ out1). reflexivity.
Qed.


(** ** The claims on the decoder *)

(** C3: the UTF-8 encoding of a code point [p] of the Basic Multilingual
    Plane ([0..0xD7FF] or [0xE000..0xFFFF]), fed to a newly constructed
    decoder in one [output_raw] call or cut in any way into successive
    calls, hands exactly one wide unit to the wide buffer, and that unit
    is [p]. *)
Theorem bmp_code_point_emits_one_unit (out : wide_out) (indet p : Z) :
  2 <= wchar_size ->
  0 <= p <= 0xD7FF \/ 0xE000 <= p <= 0xFFFF ->
  sent (m_out (snd (output_raw (utf8_encode p)
                      (utf8_on_wide_out_ctor out indet)))) = sent out ++ [p] /\
  forall chunks,
    concat chunks = utf8_encode p ->
    sent (m_out (feed chunks (utf8_on_wide_out_ctor out indet))) = sent out ++ [p].
Proof.
  intros Hw Hp.
  assert (H : forall chunks, concat chunks = utf8_encode p ->
            sent (m_out (feed chunks (utf8_on_wide_out_ctor out indet)))
            = sent out ++ [p]).
  { intros chunks Hcat.
    destruct (feed_bmp chunks p (utf8_on_wide_out_ctor out indet) Hw Hp Hcat)
      as (_ & _ & Hs). exact Hs. }
  split; [| exact H].
  apply (H [utf8_encode p]). cbn. apply app_nil_r.
Qed.

(** C4: on a two-byte [wchar_t], the four-byte encoding of a code point
    [p] in [0x10000..0x10FFFF], cut in any way into successive calls,
    hands exactly two units to a wide buffer that takes the first: the
    high surrogate [((p - 0x10000) >> 10) + 0xD800], then the low
    surrogate [((p - 0x10000) & 0x3FF) + 0xDC00]; as long as fewer than
    the four bytes have arrived the wide buffer is left untouched. *)
Theorem supplementary_code_point_emits_pair (out : wide_out) (indet p : Z) :
  wchar_size = 2 ->
  0x10000 <= p <= 0x10FFFF ->
  fst (output (high_surrogate p) out) = true ->
  length (utf8_encode p) = 4%nat /\
  (forall chunks,
     concat chunks = utf8_encode p ->
     sent (m_out (feed chunks (utf8_on_wide_out_ctor out indet)))
     = sent out ++ [high_surrogate p; low_surrogate p]) /\
  (forall chunks k,
     (k < 4)%nat ->
     concat chunks = firstn k (utf8_encode p) ->
     m_out (feed chunks (utf8_on_wide_out_ctor out indet)) = out).
Proof.
  intros Hw Hp Hacc. pose proof (surrogate_range p Hp) as [Hh Hl].
  split; [| split].
  - unfold utf8_encode.
    replace (p <? 0x80) with false by (symmetry; apply Z.ltb_ge; lia).
    replace (p <? 0x800) with false by (symmetry; apply Z.ltb_ge; lia).
    replace (p <? 0x10000) with false by (symmetry; apply Z.ltb_ge; lia).
    reflexivity.
  - intros chunks Hcat.
    rewrite (feed_supplementary chunks p) by (assumption || lia).
    rewrite emit_pair by lia. cbn [m_out utf8_on_wide_out_ctor].
    rewrite Hacc. cbn [snd m_out].
    rewrite !output_sent, !to_char_type_small by lia.
    rewrite <- app_assoc. reflexivity.
  - intros chunks k Hk Hcat.
    destruct (encode_sequence p) as (lead & conts & Henc & Hneed & Hc & Hlen & Hpay); [lia|].
    rewrite Henc in Hcat.
    pose proof (lead_need_range lead Hneed) as [_ H3].
    assert (Hfour : length (utf8_encode p) = 4%nat).
    { unfold utf8_encode.
      replace (p <? 0x80) with false by (symmetry; apply Z.ltb_ge; lia).
      replace (p <? 0x800) with false by (symmetry; apply Z.ltb_ge; lia).
      replace (p <? 0x10000) with false by (symmetry; apply Z.ltb_ge; lia).
      reflexivity. }
    rewrite Henc in Hfour. cbn [length] in Hfour.
    apply (feed_prefix chunks lead conts k); try assumption. lia.
Qed.



(** C6: malformed input is dropped without an error. A sequence cut short
    by an ASCII byte hands only that byte's unit to the wide buffer; a
    continuation byte with no sequence in progress and a byte that fits
    no pattern ([11111xxx], the invalid lead byte of the specification)
    hand over nothing; each time all bytes count as consumed and [left]
    is back at [-1]. No byte from [0xC0] up hands over anything by
    itself, and the well-formed sequence that comes next is decoded as it
    should be, whatever state the bytes before it left. *)
Theorem malformed_input_is_dropped :
  2 <= wchar_size ->
  (forall (st : utf8_on_wide_out) lead conts a chunks,
     0 < lead_need lead -> forallb is_cont conts = true ->
     Z.of_nat (length conts) < lead_need lead -> is_ascii a = true ->
     fst (output_raw (lead :: conts ++ [a]) st) = Z.of_nat (length conts) + 2 /\
     (concat chunks = lead :: conts ++ [a] ->
      left (feed chunks st) = -1 /\
      sent (m_out (feed chunks st)) = sent (m_out st) ++ [a])) /\
  (forall (st : utf8_on_wide_out) c,
     is_cont c = true -> left st = -1 ->
     output_raw [c] st = (1, mk_decoder (-1) (point st) (m_out st)) /\
     overflow c st = (0, mk_decoder (-1) (point st) (m_out st))) /\
  (forall (st : utf8_on_wide_out) b,
     is_invalid_lead b = true ->
     output_raw [b] st = (1, mk_decoder (-1) (point st) (m_out st)) /\
     overflow b st = (0, mk_decoder (-1) (point st) (m_out st))) /\
  (forall (st : utf8_on_wide_out) b,
     0xC0 <= b < 0x100 ->
     fst (output_raw [b] st) = 1 /\ m_out (snd (output_raw [b] st)) = m_out st) /\
  (forall (st : utf8_on_wide_out) p chunks,
     concat chunks = utf8_encode p ->
     (0 <= p <= 0xD7FF \/ 0xE000 <= p <= 0xFFFF ->
      sent (m_out (feed chunks st)) = sent (m_out st) ++ [p]) /\
     (0x10000 <= p <= 0x10FFFF -> 4 <= wchar_size ->
      sent (m_out (feed chunks st)) = sent (m_out st) ++ [p]) /\
     (0x10000 <= p <= 0x10FFFF -> wchar_size < 4 ->
      fst (output (high_surrogate p) (m_out st)) = true ->
      sent (m_out (feed chunks st))
      = sent (m_out st) ++ [high_surrogate p; low_surrogate p])).
Proof.
  intros Hw. split; [| split; [| split; [| split]]].
  - intros st lead conts a chunks Hneed Hc Hlen Ha.
    destruct (partial_sequence lead conts st Hneed Hc Hlen) as [Hq Hs].
    assert (Hlast : steps ((lead :: conts) ++ [a]) st
                    = mk_decoder (-1) (payload lead conts) (snd (output a (m_out st)))).
    { rewrite steps_snoc, Hs, loop_body_ascii by exact Ha. reflexivity. }
    pose proof (lead_need_range lead Hneed) as [_ H3].
    split.
    + unfold output_raw.
      change (lead :: conts ++ [a]) with ((lead :: conts) ++ [a]).
      rewrite while_loop_last by exact Hq. cbn [fst length].
      rewrite to_int_small; lia.
    + intros Hcat.
      rewrite (feed_last chunks (lead :: conts) a st Hcat Hq), Hlast.
      cbn [left m_out]. split; [reflexivity|].
      rewrite output_sent, to_char_type_small; [reflexivity | lia |].
      unfold is_ascii in Ha. apply andb_prop in Ha. destruct Ha as [H0 H1].
      apply Z.leb_le in H0. apply Z.ltb_lt in H1. lia.
  - intros st c Hc Hl.
    assert (Hrange : 0x80 <= c < 0xC0).
    { unfold is_cont in Hc. apply andb_prop in Hc. destruct Hc as [H0 H1].
      apply Z.leb_le in H0. apply Z.ltb_lt in H1. lia. }
    assert (Hraw : output_raw [c] st = (1, mk_decoder (-1) (point st) (m_out st))).
    { unfold output_raw. cbn [while_loop].
      rewrite loop_body_stray by (assumption || lia). reflexivity. }
    split; [exact Hraw|].
    assert (Hb : 0 <= c < 256) by lia. byte_facts c Hb.
    unfold overflow. rewrite (to_uchar_small c Hb), M80.
    replace (c =? eof) with false by (symmetry; apply Z.eqb_neq; unfold eof; lia).
    replace (c <? 0x80) with false by (symmetry; apply Z.ltb_ge; lia).
    cbn [negb]. rewrite Hraw. reflexivity.
  - intros st b Hi.
    assert (Hrange : 0xF8 <= b < 0x100).
    { unfold is_invalid_lead in Hi. apply andb_prop in Hi. destruct Hi as [H0 H1].
      apply Z.leb_le in H0. apply Z.ltb_lt in H1. lia. }
    assert (Hraw : output_raw [b] st = (1, mk_decoder (-1) (point st) (m_out st))).
    { unfold output_raw. cbn [while_loop].
      rewrite loop_body_invalid by assumption. reflexivity. }
    split; [exact Hraw|].
    assert (Hb : 0 <= b < 256) by lia. byte_facts b Hb.
    unfold overflow. rewrite (to_uchar_small b Hb), M80.
    replace (b =? eof) with false by (symmetry; apply Z.eqb_neq; unfold eof; lia).
    replace (b <? 0x80) with false by (symmetry; apply Z.ltb_ge; lia).
    cbn [negb]. rewrite Hraw. reflexivity.
  - intros st b Hb. unfold output_raw. cbn [while_loop].
    assert (Hb' : 0 <= b < 256) by lia.
    destruct (byte_class b Hb') as [Ha | [Hc | [Hl | Hi]]].
    + unfold is_ascii in Ha. apply andb_prop in Ha. destruct Ha as [_ H1].
      apply Z.ltb_lt in H1. lia.
    + unfold is_cont in Hc. apply andb_prop in Hc. destruct Hc as [_ H1].
      apply Z.ltb_lt in H1. lia.
    + rewrite loop_body_lead by exact Hl. split; reflexivity.
    + rewrite loop_body_invalid by exact Hi. split; reflexivity.
  - intros st p chunks Hcat. split; [| split].
    + intros Hp. destruct (feed_bmp chunks p st Hw Hp Hcat) as (_ & _ & Hs). exact Hs.
    + intros Hp Hw4. apply feed_wide; [assumption | lia | assumption].
    + intros Hp Hw2 Hacc. pose proof (surrogate_range p Hp) as [Hh Hl].
      rewrite (feed_supplementary chunks p) by assumption.
      rewrite emit_pair by assumption. rewrite Hacc. cbn [snd m_out].
      rewrite !output_sent, !to_char_type_small by lia.
      rewrite <- app_assoc. reflexivity.
Qed.

(** One iteration keeps the invariant, the byte joining the history. *)
Lemma loop_body_inv c hist (st : utf8_on_wide_out) :
  decoder_inv hist st -> decoder_inv (hist ++ [to_uchar c]) (snd (loop_body c st)).
Proof.
  intros [Hleft Hprog]. rewrite loop_body_uchar.
  pose proof (to_uchar_range c) as Hb. set (b := to_uchar c) in *.
  destruct (byte_class b Hb) as [Ha | [Hc | [Hl | Hi]]].
  - rewrite loop_body_ascii by exact Ha. split; cbn [snd left]; [auto | lia].
  - destruct (Z.ltb_spec 0 (left st)) as [Hpos | Hneg].
    + destruct (Hprog Hpos) as (pre & lead & conts & Hh & Hcs & Hlen & Hpt).
      assert (Hneed : 0 < lead_need lead) by lia.
      pose proof (lead_need_range lead Hneed) as [_ H3].
      rewrite loop_body_cont; [| exact Hc | exact Hpos | rewrite Hpt; apply payload_small; lia].
      destruct (Z.eqb_spec (left st) 1) as [H1 | H1].
      * split; rewrite emit_left; [auto | lia].
      * split; cbn [snd left point]; [lia|]. intros _.
        exists pre, lead, (conts ++ [b]). split; [| split; [| split]].
        -- rewrite Hh, <- app_assoc. reflexivity.
        -- rewrite forallb_app, Hcs. cbn. rewrite Hc. reflexivity.
        -- rewrite length_app. cbn [length]. lia.
        -- rewrite payload_snoc, Hpt. reflexivity.
    + rewrite loop_body_stray by assumption. split; cbn [snd left]; [auto | lia].
  - rewrite loop_body_lead by exact Hl. pose proof (lead_need_range b Hl) as [_ H3].
    split; cbn [snd left point]; [lia|]. intros _.
    exists hist, b, []. cbn. repeat split. lia.
  - rewrite loop_body_invalid by exact Hi. split; cbn [snd left]; [auto | lia].
Qed.

Lemma while_loop_inv buf n hist (st : utf8_on_wide_out) :
  decoder_inv hist st ->
  exists k, (k <= length buf)%nat /\
    fst (while_loop buf n st) = n + Z.of_nat k /\
    decoder_inv (hist ++ map to_uchar (firstn k buf)) (snd (while_loop buf n st)).
Proof.
  revert n hist st. induction buf as [| c buf IH]; intros n hist st Hinv.
  - exists 0%nat. cbn. rewrite app_nil_r. repeat split; [lia | lia | apply Hinv | apply Hinv].
  - cbn [while_loop]. pose proof (loop_body_inv c hist st Hinv) as Hstep.
    destruct (loop_body c st) as [continue st']. cbn [snd] in Hstep.
    destruct continue.
    + destruct (IH (n + 1) _ st' Hstep) as (k & Hk & Hn & Hi).
      exists (S k). split; [cbn; lia|]. split; [rewrite Hn; lia|].
      cbn [firstn map]. rewrite <- app_assoc in Hi. exact Hi.
    + exists 1%nat. split; [cbn; lia|]. split; [reflexivity|]. exact Hstep.
Qed.

(** C9: between two bytes the decoder's [left] is one of -1, 1, 2, 3,
    never 0, and while it is positive the bytes consumed so far end with
    a lead byte and its first continuation bytes, [left] counts the ones
    still missing and [point] is exactly their payload. This holds at
    construction, and one iteration of the loop of [output_raw], a call
    of [output_raw] (over the bytes it consumed) and a call of [overflow]
    each keep it. *)
Theorem decoder_invariant :
  (forall (out : wide_out) indet,
     decoder_inv [] (utf8_on_wide_out_ctor out indet)) /\
  (forall c hist (st : utf8_on_wide_out),
     decoder_inv hist st ->
     decoder_inv (hist ++ [to_uchar c]) (snd (loop_body c st))) /\
  (forall buf hist (st : utf8_on_wide_out),
     decoder_inv hist st ->
     exists k, (k <= length buf)%nat /\
       fst (output_raw buf st) = to_int (Z.of_nat k) /\
       decoder_inv (hist ++ map to_uchar (firstn k buf)) (snd (output_raw buf st))) /\
  (forall ch hist (st : utf8_on_wide_out),
     decoder_inv hist st ->
     decoder_inv (hist ++ (if ch =? eof then [] else [to_uchar ch]))
       (snd (overflow ch st))).
Proof.
  split; [| split; [| split]].
  - intros out indet. split; cbn; [auto | lia].
  - apply loop_body_inv.
  - intros buf hist st Hinv.
    destruct (while_loop_inv buf 0 hist st Hinv) as (k & Hk & Hn & Hi).
    exists k. unfold output_raw.
    destruct (while_loop buf 0 st) as [n st']. cbn [fst snd] in *.
    subst n. auto.
  - intros ch hist st Hinv. unfold overflow.
    destruct (ch =? eof); cbn [negb]; [rewrite app_nil_r; exact Hinv|].
    pose proof (loop_body_inv (to_uchar ch) hist st Hinv) as Hstep.
    rewrite to_uchar_idem in Hstep.
    unfold loop_body in Hstep. rewrite to_uchar_idem in Hstep.
    unfold output_raw. cbn [while_loop].
    unfold loop_body. rewrite to_uchar_idem.
    destruct (Z.land (to_uchar ch) 0x80 =? 0).
    + destruct (output (to_uchar ch) (m_out st)). exact Hstep.
    + destruct (classify (to_uchar ch) (left st) (point st)) as [l v].
      destruct (l =? 0).
      * destruct (emit v (m_out st)) as [[|] st']; exact Hstep.
      * exact Hstep.
Qed.

(** C10: a complete sequence whose payload [v] is a surrogate value
    ([0xD800..0xDFFF]) or lies above [0x10FFFF]. On a [wchar_t] under
    four bytes nothing is handed to the wide buffer, yet all its bytes
    count as consumed and [left] is back at [-1]; on a [wchar_t] of four
    bytes or more the payload of every complete sequence, these included,
    goes out as the single unit [v]. *)
Theorem unrepresentable_value_handling (lead : Z) (conts : list Z) (st : utf8_on_wide_out) :
  0 < lead_need lead -> forallb is_cont conts = true ->
  Z.of_nat (length conts) = lead_need lead ->
  (wchar_size < 4 ->
   0xD800 <= payload lead conts <= 0xDFFF \/ 0x10FFFF < payload lead conts ->
   output_raw (lead :: conts) st =
     (1 + lead_need lead, mk_decoder (-1) (payload lead conts) (m_out st))) /\
  (4 <= wchar_size ->
   fst (output_raw (lead :: conts) st) = 1 + lead_need lead /\
   left (snd (output_raw (lead :: conts) st)) = -1 /\
   sent (m_out (snd (output_raw (lead :: conts) st)))
   = sent (m_out st) ++ [payload lead conts]).
Proof.
  intros Hneed Hc Hlen. pose proof (lead_need_range lead Hneed) as [_ H3].
  rewrite (output_raw_sequence lead conts st Hneed Hc Hlen). split.
  - intros Hw Hv. rewrite emit_drop by assumption. reflexivity.
  - intros Hw. rewrite emit_single by lia. cbn [fst snd left m_out].
    split; [reflexivity|]. split; [reflexivity|].
    rewrite output_sent, to_char_type_wide; [reflexivity | exact Hw |].
    pose proof (payload_small lead conts). lia.
Qed.

End DecoderSteps.

(** ** The heap of buffer objects *)

Lemma deref_app h l p o : deref h p = Some o -> deref (h ++ l) p = Some o.
Proof.
  destruct p as [| i]; cbn; [discriminate|]. intros H.
  rewrite nth_error_app1; [exact H|]. apply nth_error_Some. congruence.
Qed.

Lemma deref_new h o : deref (h ++ [o]) (S (length h)) = Some o.
Proof. cbn. rewrite nth_error_app2, Nat.sub_diag by lia. reflexivity. Qed.

Lemma is_decoder_live h p o :
  deref h p = Some o ->
  is_utf8_on_wide_out h p =
    Some (match o with utf8_on_wide_out_obj _ => true | other_streambuf => false end).
Proof.
  destruct p as [| i]; cbn; [discriminate|]. intros ->. destruct o; reflexivity.
Qed.

Lemma live_not_null h p o : deref h p = Some o -> Nat.eqb p nullptr = false.
Proof. destruct p; cbn; [discriminate | reflexivity]. Qed.

Section GuardFacts.

Variable translate : bool.

(** What the constructor does on a translating platform to streams that
    have buffer objects [o1] and [o2]. *)
Lemma ctor_translating ps o1 o2 :
  translate = true ->
  deref (heap ps) (cout_rdbuf ps) = Some o1 ->
  deref (heap ps) (cerr_rdbuf ps) = Some o2 ->
  exists g ps',
    con_transcoder_ctor translate ps = Some (g, ps') /\
    prepared ps' = true /\
    prepare_calls ps' = (if prepared ps then prepare_calls ps else S (prepare_calls ps)) /\
    (exists l, heap ps' = heap ps ++ l) /\
    is_utf8_on_wide_out (heap ps') (cout_rdbuf ps') = Some true /\
    is_utf8_on_wide_out (heap ps') (cerr_rdbuf ps') = Some true /\
    m_coutBuf g = match o1 with
                  | utf8_on_wide_out_obj _ => nullptr
                  | other_streambuf => cout_rdbuf ps
                  end /\
    m_cerrBuf g = match o2 with
                  | utf8_on_wide_out_obj _ => nullptr
                  | other_streambuf => cerr_rdbuf ps
                  end /\
    match o1 with
    | utf8_on_wide_out_obj _ => cout_rdbuf ps' = cout_rdbuf ps
    | other_streambuf => True
    end /\
    match o2 with
    | utf8_on_wide_out_obj _ => cerr_rdbuf ps' = cerr_rdbuf ps
    | other_streambuf => True
    end.
Proof.
  intros -> H1 H2. destruct ps as [h co ce wo we lo le cl mo me pr pc sy].
  cbn [heap cout_rdbuf cerr_rdbuf prepared prepare_calls] in *.
  unfold con_transcoder_ctor, prepare_console, set_prepared. cbn [negb].
  destruct pr; cbn [negb heap cout_rdbuf cerr_rdbuf wcout_rdbuf wcerr_rdbuf
                      wcout_loc wcerr_loc c_locale stdout_mode stderr_mode
                      prepared prepare_calls synced].
  all: rewrite (is_decoder_live _ _ _ H1).
  all: destruct o1; cbn [negb].
  all: unfold streambuf_pubsync, new_utf8_on_wide_out, set_cout_rdbuf;
       cbn [heap cout_rdbuf cerr_rdbuf wcout_rdbuf wcerr_rdbuf wcout_loc
              wcerr_loc c_locale stdout_mode stderr_mode prepared prepare_calls synced].
  all: try rewrite H1.
  all: cbn [heap cout_rdbuf cerr_rdbuf wcout_rdbuf wcerr_rdbuf wcout_loc
              wcerr_loc c_locale stdout_mode stderr_mode prepared prepare_calls synced].
  all: try rewrite (is_decoder_live _ _ _ (deref_app _ [utf8_on_wide_out_obj wo] _ _ H2)).
  all: try rewrite (is_decoder_live _ _ _ H2).
  all: destruct o2; cbn [negb].
  all: unfold set_cerr_rdbuf;
       cbn [heap cout_rdbuf cerr_rdbuf wcout_rdbuf wcerr_rdbuf wcout_loc
              wcerr_loc c_locale stdout_mode stderr_mode prepared prepare_calls synced].
  all: try rewrite (deref_app _ [utf8_on_wide_out_obj wo] _ _ H2).
  all: try rewrite H2.
  all: cbn [heap cout_rdbuf cerr_rdbuf wcout_rdbuf wcerr_rdbuf wcout_loc
              wcerr_loc c_locale stdout_mode stderr_mode prepared prepare_calls synced].
  all: eexists _, _; split; [reflexivity|].
  all: cbn [heap cout_rdbuf cerr_rdbuf prepared prepare_calls m_coutBuf m_cerrBuf].
  all: repeat match goal with
              | |- _ /\ _ => split
              | |- exists l, _ = _ ++ l =>
                  first [ exists []; symmetry; apply app_nil_r
                        | eexists; rewrite <- app_assoc; reflexivity
                        | eexists; reflexivity ]
              | |- is_utf8_on_wide_out _ _ = Some true =>
                  eapply eq_trans;
                  [ eapply is_decoder_live;
                    first [ apply deref_new
                          | apply deref_app, deref_new
                          | apply deref_app; eassumption
                          | eassumption ]
                  | reflexivity ]
              | |- _ => reflexivity || exact I
              end.
Qed.

Lemma ctor_not_translating ps :
  translate = false ->
  con_transcoder_ctor translate ps = Some (mk_guard nullptr nullptr, ps).
Proof. intros ->. reflexivity. Qed.

(** With the console prepared and a decoder on both streams the
    constructor changes nothing and the guard holds nothing. *)
Lemma ctor_idle ps :
  prepared ps = true ->
  is_utf8_on_wide_out (heap ps) (cout_rdbuf ps) = Some true ->
  is_utf8_on_wide_out (heap ps) (cerr_rdbuf ps) = Some true ->
  con_transcoder_ctor translate ps = Some (mk_guard nullptr nullptr, ps).
Proof.
  intros Hp H1 H2. unfold con_transcoder_ctor.
  destruct translate; cbn [negb]; [| reflexivity].
  rewrite Hp. cbn [negb]. rewrite H1. cbn [negb]. rewrite H2. reflexivity.
Qed.

Lemma decoder_is_live h p :
  is_utf8_on_wide_out h p = Some true -> deref h p <> None.
Proof.
  destruct p as [| i]; cbn; [discriminate|].
  destruct (nth_error h i); [discriminate | discriminate].
Qed.

Lemma dtor_cout g ps :
  cout_rdbuf (con_transcoder_dtor g ps) =
    if Nat.eqb (m_coutBuf g) nullptr then cout_rdbuf ps else m_coutBuf g.
Proof.
  unfold con_transcoder_dtor.
  destruct (Nat.eqb (m_coutBuf g) nullptr), (Nat.eqb (m_cerrBuf g) nullptr); reflexivity.
Qed.

Lemma dtor_cerr g ps :
  cerr_rdbuf (con_transcoder_dtor g ps) =
    if Nat.eqb (m_cerrBuf g) nullptr then cerr_rdbuf ps else m_cerrBuf g.
Proof.
  unfold con_transcoder_dtor.
  destruct (Nat.eqb (m_coutBuf g) nullptr), (Nat.eqb (m_cerrBuf g) nullptr); reflexivity.
Qed.

(** The destructor touches the two stream buffers only. *)
Lemma dtor_frame g ps :
  heap (con_transcoder_dtor g ps) = heap ps /\
  prepared (con_transcoder_dtor g ps) = prepared ps /\
  prepare_calls (con_transcoder_dtor g ps) = prepare_calls ps.
Proof.
  unfold con_transcoder_dtor.
  destruct (Nat.eqb (m_coutBuf g) nullptr), (Nat.eqb (m_cerrBuf g) nullptr);
    repeat split.
Qed.

(** ** The claims on the guard *)

(** C7: on streams that have buffers, a constructor finding a decoder on
    a stream installs nothing for it and keeps a null pointer for it.
    After an outer guard, an inner guard installs nothing at all and its
    destruction changes nothing; once the inner and then the outer guard
    are destroyed, both streams have the buffers they had before the
    outer guard. *)
Theorem nested_guards_restore_streams (ps : process) :
  live_streams ps ->
  exists outer ps1 inner ps2,
    con_transcoder_ctor translate ps = Some (outer, ps1) /\
    con_transcoder_ctor translate ps1 = Some (inner, ps2) /\
    (is_utf8_on_wide_out (heap ps) (cout_rdbuf ps) = Some true ->
     m_coutBuf outer = nullptr /\ cout_rdbuf ps1 = cout_rdbuf ps) /\
    (is_utf8_on_wide_out (heap ps) (cerr_rdbuf ps) = Some true ->
     m_cerrBuf outer = nullptr /\ cerr_rdbuf ps1 = cerr_rdbuf ps) /\
    (translate = true ->
     is_utf8_on_wide_out (heap ps1) (cout_rdbuf ps1) = Some true /\
     is_utf8_on_wide_out (heap ps1) (cerr_rdbuf ps1) = Some true) /\
    inner = mk_guard nullptr nullptr /\ ps2 = ps1 /\
    con_transcoder_dtor inner ps2 = ps2 /\
    cout_rdbuf (con_transcoder_dtor outer (con_transcoder_dtor inner ps2)) = cout_rdbuf ps /\
    cerr_rdbuf (con_transcoder_dtor outer (con_transcoder_dtor inner ps2)) = cerr_rdbuf ps.
Proof.
  intros [L1 L2].
  destruct (deref (heap ps) (cout_rdbuf ps)) as [o1 |] eqn:H1; [| congruence].
  destruct (deref (heap ps) (cerr_rdbuf ps)) as [o2 |] eqn:H2; [| congruence].
  destruct translate eqn:Et.
  - destruct (ctor_translating ps o1 o2 Et H1 H2)
      as (g & ps' & Hc & Hp & _ & _ & D1 & D2 & G1 & G2 & K1 & K2).
    rewrite <- Et. exists g, ps', (mk_guard nullptr nullptr), ps'.
    rewrite Et. rewrite Et in Hc.
    split; [exact Hc|]. split; [rewrite <- Et; apply ctor_idle; assumption|].
    rewrite (is_decoder_live _ _ _ H1), (is_decoder_live _ _ _ H2).
    split; [| split].
    + intros E. destruct o1; [discriminate|]. auto.
    + intros E. destruct o2; [discriminate|]. auto.
    + split; [auto|]. split; [reflexivity|]. split; [reflexivity|].
      split; [reflexivity|].
      change (con_transcoder_dtor (mk_guard nullptr nullptr) ps') with ps'.
      rewrite dtor_cout, dtor_cerr, G1, G2. split.
      * destruct o1; [rewrite (live_not_null _ _ _ H1); reflexivity | exact K1].
      * destruct o2; [rewrite (live_not_null _ _ _ H2); reflexivity | exact K2].
  - exists (mk_guard nullptr nullptr), ps, (mk_guard nullptr nullptr), ps.
    repeat split; try discriminate.
Qed.

(** ** Programs over guards *)

Lemma Forall_remove_nth (P : con_transcoder -> Prop) i gs :
  Forall P gs -> Forall P (remove_nth i gs).
Proof.
  intros H. unfold remove_nth. apply Forall_app. split.
  - apply Forall_forall. intros x Hx. rewrite Forall_forall in H.
    apply H. rewrite <- (firstn_skipn i gs). apply in_or_app. auto.
  - apply Forall_forall. intros x Hx. rewrite Forall_forall in H.
    apply H. rewrite <- (firstn_skipn (S i) gs). apply in_or_app. auto.
Qed.

Lemma Forall_replace_nth (P : con_transcoder -> Prop) i g gs :
  P g -> Forall P gs -> Forall P (replace_nth i g gs).
Proof.
  intros Hg H. unfold replace_nth. apply Forall_app. split.
  - apply Forall_forall. intros x Hx. rewrite Forall_forall in H.
    apply H. rewrite <- (firstn_skipn i gs). apply in_or_app. auto.
  - constructor; [exact Hg|].
    apply Forall_forall. intros x Hx. rewrite Forall_forall in H.
    apply H. rewrite <- (firstn_skipn (S i) gs). apply in_or_app. auto.
Qed.

Lemma null_or_live_grows h l (p : ptr) :
  p = nullptr \/ deref h p <> None -> p = nullptr \/ deref (h ++ l) p <> None.
Proof.
  intros [H | H]; [left; exact H | right].
  destruct (deref h p) eqn:E; [| congruence].
  rewrite (deref_app _ _ _ _ E). discriminate.
Qed.

Lemma sound_guard_grows h l g : sound_guard h g -> sound_guard (h ++ l) g.
Proof. intros [H1 H2]. split; apply null_or_live_grows; assumption. Qed.

Lemma ctor_keeps_inv gs ps :
  guard_inv (gs, ps) ->
  exists g ps',
    con_transcoder_ctor translate ps = Some (g, ps') /\
    guard_inv (gs ++ [g], ps') /\
    (prepared ps = true -> prepared ps' = true) /\
    (translate = true -> prepared ps' = true).
Proof.
  intros ([L1 L2] & Hgs & Hpc). cbn [fst snd] in *.
  destruct translate eqn:Et.
  - destruct (deref (heap ps) (cout_rdbuf ps)) as [o1 |] eqn:H1; [| congruence].
    destruct (deref (heap ps) (cerr_rdbuf ps)) as [o2 |] eqn:H2; [| congruence].
    destruct (ctor_translating ps o1 o2 Et H1 H2)
      as (g & ps' & Hc & Hp & Hcalls & [l Hl] & D1 & D2 & G1 & G2 & _ & _).
    rewrite Et in Hc. exists g, ps'. split; [exact Hc|]. split; [| auto].
    split; [| split]; cbn [fst snd].
    + split; apply decoder_is_live; assumption.
    + rewrite Hl. apply Forall_app. split.
      * eapply Forall_impl; [| exact Hgs]. intros a. apply sound_guard_grows.
      * constructor; [| constructor]. apply sound_guard_grows. split.
        -- rewrite G1. destruct o1; [right; congruence | left; reflexivity].
        -- rewrite G2. destruct o2; [right; congruence | left; reflexivity].
    + rewrite Hcalls, Hp, Hpc. destruct (prepared ps); reflexivity.
  - exists (mk_guard nullptr nullptr), ps. split; [reflexivity|].
    split; [| split; [auto | discriminate]].
    split; [| split]; cbn [fst snd]; [split; assumption | | exact Hpc].
    apply Forall_app. split; [exact Hgs|].
    constructor; [| constructor]. split; left; reflexivity.
Qed.

Lemma dtor_keeps_inv gs gs' g ps :
  guard_inv (gs, ps) -> In g gs -> Forall (sound_guard (heap ps)) gs' ->
  guard_inv (gs', con_transcoder_dtor g ps).
Proof.
  intros ([L1 L2] & Hgs & Hpc) Hin Hgs'. cbn [fst snd] in *.
  rewrite Forall_forall in Hgs. destruct (Hgs g Hin) as [S1 S2].
  destruct (dtor_frame g ps) as (Hh & Hp & Hc).
  split; [| split]; cbn [fst snd].
  - unfold live_streams. rewrite Hh, dtor_cout, dtor_cerr. split.
    + destruct (Nat.eqb_spec (m_coutBuf g) nullptr); [exact L1|]. tauto.
    + destruct (Nat.eqb_spec (m_cerrBuf g) nullptr); [exact L2|]. tauto.
  - rewrite Hh. exact Hgs'.
  - rewrite Hc, Hp. exact Hpc.
Qed.

(** Every step is defined on a state that satisfies the invariant, keeps
    it, and never clears [prepared]. *)
Lemma step_keeps_inv a st :
  guard_inv st ->
  exists st',
    step translate a st = Some st' /\ guard_inv st' /\
    (prepared (snd st) = true -> prepared (snd st') = true) /\
    (translate = true -> a = Construct -> prepared (snd st') = true).
Proof.
  destruct st as [gs ps]. intros Hinv. destruct a as [| i | i | i j]; cbn [step].
  - destruct (ctor_keeps_inv gs ps Hinv) as (g & ps' & -> & Hi & Hp & Ht).
    exists (gs ++ [g], ps'). auto.
  - destruct (nth_error gs i) as [g |] eqn:E.
    + eexists. split; [reflexivity|]. split; [| split; [| discriminate]].
      * apply (dtor_keeps_inv gs _ g ps Hinv); [eapply nth_error_In, E|].
        apply Forall_remove_nth. apply Hinv.
      * cbn [snd]. destruct (dtor_frame g ps) as (_ & -> & _). auto.
    + exists (gs, ps). split; [reflexivity|]. split; [exact Hinv|]. split; [auto | discriminate].
  - destruct (nth_error gs i) as [g |] eqn:E.
    + cbn. eexists. split; [reflexivity|]. split; [| split; [auto | discriminate]].
      destruct Hinv as (HL & Hgs & Hpc). cbn [fst snd] in *.
      assert (Hg : sound_guard (heap ps) g).
      { rewrite Forall_forall in Hgs. apply Hgs. eapply nth_error_In, E. }
      split; [exact HL|]. split; [| exact Hpc]. cbn [fst snd].
      apply Forall_app. split; [apply Forall_replace_nth; assumption|].
      constructor; [| constructor]. exact Hg.
    + exists (gs, ps). split; [reflexivity|]. split; [exact Hinv|]. split; [auto | discriminate].
  - destruct (nth_error gs i) as [gi |] eqn:Ei; [destruct (nth_error gs j) as [gj |] eqn:Ej|].
    + cbn. eexists. split; [reflexivity|]. split; [| split; [auto | discriminate]].
      destruct Hinv as (HL & Hgs & Hpc). cbn [fst snd] in *.
      assert (Hg : sound_guard (heap ps) gj).
      { rewrite Forall_forall in Hgs. apply Hgs. eapply nth_error_In, Ej. }
      split; [exact HL|]. split; [| exact Hpc]. cbn [fst snd].
      apply Forall_replace_nth; [exact Hg|]. apply Forall_replace_nth; assumption.
    + exists (gs, ps). split; [reflexivity|]. split; [exact Hinv|]. split; [auto | discriminate].
    + exists (gs, ps). split; [reflexivity|]. split; [exact Hinv|]. split; [auto | discriminate].
Qed.

Lemma run_keeps_inv prog st :
  guard_inv st ->
  exists st',
    run translate prog st = Some st' /\ guard_inv st' /\
    (translate = true -> prepared (snd st) = true \/ In Construct prog ->
     prepared (snd st') = true).
Proof.
  revert st. induction prog as [| a prog IH]; intros st Hinv.
  - exists st. split; [reflexivity|]. split; [exact Hinv|].
    intros _ [H | []]. exact H.
  - destruct (step_keeps_inv a st Hinv) as (st1 & Hs & Hi1 & Hp1 & Hc1).
    destruct (IH st1 Hi1) as (st' & Hr & Hi' & Hp').
    exists st'. cbn [run]. rewrite Hs. split; [exact Hr|]. split; [exact Hi'|].
    intros Ht [H | [H | H]]; apply Hp'; auto.
Qed.

(** C8: from the start of a process whose streams have buffers, whatever
    guards a program constructs, moves and destroys, every step is
    defined and [prepare_console] has run at most once; on a translating
    platform it has run exactly once as soon as one guard was
    constructed. *)
Theorem prepare_console_runs_at_most_once (prog : list action) (ps : process) :
  live_streams ps -> prepared ps = false -> prepare_calls ps = 0%nat ->
  exists gs ps',
    run translate prog ([], ps) = Some (gs, ps') /\
    (prepare_calls ps' <= 1)%nat /\
    (translate = true -> In Construct prog -> prepare_calls ps' = 1%nat).
Proof.
  intros HL Hp Hc.
  assert (Hinv : guard_inv ([], ps)).
  { split; [exact HL|]. split; [constructor|]. cbn [snd]. rewrite Hp, Hc. reflexivity. }
  destruct (run_keeps_inv prog _ Hinv) as ([gs ps'] & Hr & (_ & _ & Hcalls) & Hprep).
  exists gs, ps'. cbn [snd] in *. split; [exact Hr|]. split.
  - rewrite Hcalls. destruct (prepared ps'); lia.
  - intros Ht Hin. rewrite Hcalls, Hprep; auto.
Qed.

End GuardFacts.

(** C1: the defaulted move constructor copies the two saved pointers and
    leaves the source as it was. On a translating platform, after
    [con_transcoder a; con_transcoder b(std::move(a));] both guards hold
    the buffer to restore, and the destructor of the moved-from [a] puts
    the original buffer back on [cout] while [b] is alive. *)
Theorem moved_from_guard_still_restores :
  (forall g, con_transcoder_move_ctor g = (g, g)) /\
  (forall this g, con_transcoder_move_assign this g = (g, g)) /\
  exists a ps1,
    con_transcoder_ctor true process_start = Some (a, ps1) /\
    cout_rdbuf ps1 <> cout_rdbuf process_start /\
    let '(b, a') := con_transcoder_move_ctor a in
    m_coutBuf b = cout_rdbuf process_start /\
    m_coutBuf a' = cout_rdbuf process_start /\
    m_coutBuf a' <> nullptr /\
    cout_rdbuf (con_transcoder_dtor a' ps1) = cout_rdbuf process_start.
Proof.
  split; [intros [c e]; reflexivity|]. split; [intros this [c e]; reflexivity|].
  eexists _, _. split; [reflexivity|]. cbn.
  repeat split; discriminate.
Qed.

(** C2: without translation the constructor replaces no buffer, as the
    claim says, but it does not imbue the wide streams: it returns before
    it reaches [prepare_console], whose body for this platform is that
    very imbue. With the wide streams in the classic locale and the
    process in another one, both wide streams are still in the classic
    locale after the constructor, where [prepare_console] would have put
    them in the locale of the process. *)
Theorem ctor_without_translation_skips_locale :
  con_transcoder_ctor false process_start
  = Some (mk_guard nullptr nullptr, process_start) /\
  wcout_loc process_start <> c_locale process_start /\
  wcerr_loc process_start <> c_locale process_start /\
  wcout_loc (prepare_console false process_start) = c_locale process_start /\
  wcerr_loc (prepare_console false process_start) = c_locale process_start.
Proof. cbn. repeat split; discriminate. Qed.

(** ** The statements at work *)

(** The two end-to-end examples of the specification, on the two-byte
    platform. *)
Example hello_world :
  @output_raw bounded16 hello (utf8_on_wide_out_ctor (fresh16 16) 0)
  = (14, mk_decoder (-1) 0x754C
           (wide16
              (mk_bounded 6 [0x48; 0x65; 0x6C; 0x6C; 0x6F; 0x2C; 0x20; 0x4E16; 0x754C; 0x21])
              [0x48; 0x65; 0x6C; 0x6C; 0x6F; 0x2C; 0x20; 0x4E16; 0x754C; 0x21])).
Proof. reflexivity. Qed.

Example grinning_face_byte_by_byte :
  map (fun chunks =>
         sent (m_out (@feed bounded16 chunks
                        (utf8_on_wide_out_ctor (fresh16 16) 0))))
    [[[0xF0]]; [[0xF0]; [0x9F]]; [[0xF0]; [0x9F]; [0x98]];
     [[0xF0]; [0x9F]; [0x98]; [0x80]]]
  = [[]; []; []; [0xD83D; 0xDE00]].
Proof. reflexivity. Qed.

(** On a four-byte [wchar_t] the same four bytes give the one unit
    U+1F600. *)
Example grinning_face_wide :
  sent (m_out (snd (@output_raw bounded32 [0xF0; 0x9F; 0x98; 0x80]
                      (@utf8_on_wide_out_ctor bounded32
                         (@mk_wide_out bounded32 (mk_bounded 16 []) []) 0))))
  = [0x1F600].
Proof. reflexivity. Qed.

Lemma bmp_code_point_witness :
  (2 <= @wchar_size bounded16) /\
  (0 <= 0x4E16 <= 0xD7FF \/ 0xE000 <= 0x4E16 <= 0xFFFF) /\
  sent (m_out (snd (@output_raw bounded16 (utf8_encode 0x4E16)
                      (utf8_on_wide_out_ctor (fresh16 4) 0)))) = [0x4E16] /\
  sent (m_out (@feed bounded16 [[0xE4]; []; [0xB8; 0x96]]
                 (utf8_on_wide_out_ctor (fresh16 4) 0))) = [0x4E16].
Proof.
  assert (Hw : 2 <= @wchar_size bounded16) by (cbn; lia).
  assert (Hp : 0 <= 0x4E16 <= 0xD7FF \/ 0xE000 <= 0x4E16 <= 0xFFFF) by lia.
  destruct (@bmp_code_point_emits_one_unit bounded16 (fresh16 4) 0 0x4E16 Hw Hp)
    as [H1 H2].
  split; [exact Hw|]. split; [exact Hp|]. split; [exact H1|].
  apply H2. reflexivity.
Defined.

Lemma supplementary_code_point_witness :
  (@wchar_size bounded16 = 2) /\
  (0x10000 <= 0x1F600 <= 0x10FFFF) /\
  fst (@output bounded16 (high_surrogate 0x1F600) (fresh16 2)) = true /\
  sent (m_out (@feed bounded16 [[0xF0]; [0x9F]; [0x98]; [0x80]]
                 (utf8_on_wide_out_ctor (fresh16 2) 0)))
  = [0xD83D; 0xDE00] /\
  m_out (@feed bounded16 [[0xF0]; [0x9F]; [0x98]]
           (utf8_on_wide_out_ctor (fresh16 2) 0))
  = fresh16 2.
Proof.
  assert (Hw : @wchar_size bounded16 = 2) by reflexivity.
  assert (Hp : 0x10000 <= 0x1F600 <= 0x10FFFF) by lia.
  assert (Ha : fst (@output bounded16 (high_surrogate 0x1F600) (fresh16 2))
               = true) by reflexivity.
  destruct (@supplementary_code_point_emits_pair bounded16 (fresh16 2) 0
              0x1F600 Hw Hp Ha) as (_ & H1 & H2).
  split; [exact Hw|]. split; [exact Hp|]. split; [exact Ha|]. split.
  - apply (H1 [[0xF0]; [0x9F]; [0x98]; [0x80]]). reflexivity.
  - apply (H2 [[0xF0]; [0x9F]; [0x98]] 3%nat); [lia | reflexivity].
Defined.


Lemma malformed_input_witness :
  (2 <= @wchar_size bounded16) /\
  fst (@output_raw bounded16 ([0xE4; 0xB8] ++ [0x41])
         (utf8_on_wide_out_ctor (fresh16 4) 0)) = 3 /\
  sent (m_out (@feed bounded16 [[0xE4]; [0xB8; 0x41]]
                 (utf8_on_wide_out_ctor (fresh16 4) 0))) = [0x41] /\
  @output_raw bounded16 [0x80] (utf8_on_wide_out_ctor (fresh16 4) 0)
  = (1, utf8_on_wide_out_ctor (fresh16 4) 0) /\
  @output_raw bounded16 [0xFF] (utf8_on_wide_out_ctor (fresh16 4) 0)
  = (1, utf8_on_wide_out_ctor (fresh16 4) 0).
Proof.
  assert (Hw : 2 <= @wchar_size bounded16) by (cbn; lia).
  destruct (@malformed_input_is_dropped bounded16 Hw) as (T & C & I & _ & _).
  split; [exact Hw|].
  destruct (T (utf8_on_wide_out_ctor (fresh16 4) 0) 0xE4 [0xB8] 0x41
              [[0xE4]; [0xB8; 0x41]]) as [H1 H2];
    [reflexivity | reflexivity | cbn; lia | reflexivity |].
  split; [exact H1|]. split; [apply H2; reflexivity|]. split.
  - apply (C (utf8_on_wide_out_ctor (fresh16 4) 0) 0x80); reflexivity.
  - apply (I (utf8_on_wide_out_ctor (fresh16 4) 0) 0xFF); reflexivity.
Defined.

Lemma decoder_invariant_witness :
  decoder_inv [0xE4]
    (snd (@loop_body bounded16 0xE4 (utf8_on_wide_out_ctor (fresh16 4) 0))).
Proof.
  destruct (@decoder_invariant bounded16) as (B & S & _).
  exact (S 0xE4 [] _ (B (fresh16 4) 0)).
Defined.

Lemma unrepresentable_value_witness :
  (0 < lead_need 0xED) /\
  (@wchar_size bounded16 < 4) /\
  (0xD800 <= payload 0xED [0xA0; 0x80] <= 0xDFFF) /\
  @output_raw bounded16 [0xED; 0xA0; 0x80]
    (utf8_on_wide_out_ctor (fresh16 4) 0)
  = (3, mk_decoder (-1) 0xD800 (fresh16 4)).
Proof.
  assert (Hn : 0 < lead_need 0xED) by (cbn; lia).
  assert (Hw : @wchar_size bounded16 < 4) by (cbn; lia).
  assert (Hv : 0xD800 <= payload 0xED [0xA0; 0x80] <= 0xDFFF) by (cbn; lia).
  destruct (@unrepresentable_value_handling bounded16 0xED [0xA0; 0x80]
              (utf8_on_wide_out_ctor (fresh16 4) 0) Hn eq_refl eq_refl)
    as [H _].
  split; [exact Hn|]. split; [exact Hw|]. split; [exact Hv|].
  exact (H Hw (or_introl Hv)).
Defined.

Lemma nested_guards_witness :
  live_streams process_start /\
  exists outer ps1 inner ps2,
    con_transcoder_ctor true process_start = Some (outer, ps1) /\
    con_transcoder_ctor true ps1 = Some (inner, ps2) /\
    inner = mk_guard nullptr nullptr /\
    cout_rdbuf (con_transcoder_dtor outer (con_transcoder_dtor inner ps2)) = 1%nat /\
    cerr_rdbuf (con_transcoder_dtor outer (con_transcoder_dtor inner ps2)) = 2%nat.
Proof.
  assert (HL : live_streams process_start) by (split; discriminate).
  split; [exact HL|].
  destruct (nested_guards_restore_streams true process_start HL)
    as (outer & ps1 & inner & ps2 & H1 & H2 & _ & _ & _ & Hi & _ & _ & Hc & He).
  exists outer, ps1, inner, ps2. auto.
Defined.

Lemma prepare_console_witness :
  live_streams process_start /\
  exists gs ps',
    run true [Construct; Construct; MoveConstruct 0; Destroy 1; Construct]
      ([], process_start) = Some (gs, ps') /\
    prepare_calls ps' = 1%nat.
Proof.
  assert (HL : live_streams process_start) by (split; discriminate).
  split; [exact HL|].
  destruct (prepare_console_runs_at_most_once true
              [Construct; Construct; MoveConstruct 0; Destroy 1; Construct]
              process_start HL eq_refl eq_refl) as (gs & ps' & Hr & _ & H1).
  exists gs, ps'. split; [exact Hr|]. apply H1; [reflexivity | left; reflexivity].
Defined.

(** * More on the decoder *)

Section DecoderMore.

Context {W : wide_streambuf}.

Lemma while_loop_app a b n (st : utf8_on_wide_out) :
  quiet a st = true ->
  while_loop (a ++ b) n st = while_loop b (n + Z.of_nat (length a)) (steps a st).
Proof.
  revert n st. induction a as [| x a IH]; intros n st Hq.
  - cbn. f_equal. lia.
  - cbn in Hq. apply andb_prop in Hq. destruct Hq as [Hx Hq].
    cbn [app while_loop steps length].
    destruct (loop_body x st) as [k st'] eqn:E. cbn in Hx, Hq. subst k.
    cbn [snd]. rewrite IH by exact Hq. f_equal. lia.
Qed.

(** The count of the loop: one at least on a buffer that is not empty,
    the length of the buffer at most. *)
Lemma while_loop_count buf n (st : utf8_on_wide_out) :
  n <= fst (while_loop buf n st) <= n + Z.of_nat (length buf) /\
  (buf <> [] -> n + 1 <= fst (while_loop buf n st)).
Proof.
  revert n st. induction buf as [| c buf IH]; intros n st.
  - cbn. split; [lia | congruence].
  - cbn [while_loop length]. destruct (loop_body c st) as [[|] st'].
    + destruct (IH (n + 1) st') as [H _]. split; [lia | intros _; lia].
    + cbn [fst]. split; [lia | intros _; lia].
Qed.

(** X1: [output_raw] reports between 0 and the length of the buffer; on a
    buffer that is not empty it reports 1 at least, also when the very
    first write is refused; and it reports the whole length when no write
    is refused. *)
Theorem output_raw_count (buf : list Z) (st : utf8_on_wide_out) :
  Z.of_nat (length buf) < 2 ^ 31 ->
  0 <= fst (output_raw buf st) <= Z.of_nat (length buf) /\
  (buf <> [] -> 1 <= fst (output_raw buf st)) /\
  (quiet buf st = true -> fst (output_raw buf st) = Z.of_nat (length buf)).
Proof.
  intros Hlen. unfold output_raw.
  destruct (while_loop_count buf 0 st) as [Hb Hne].
  pose proof (while_loop_quiet buf 0 st) as Hq.
  destruct (while_loop buf 0 st) as [n st']. cbn [fst] in *.
  rewrite to_int_small by lia. split; [lia|]. split.
  - intros H. specialize (Hne H). lia.
  - intros H. specialize (Hq H). injection Hq as -> _. lia.
Qed.

(** X2: on every byte but the end-of-file value [overflow] leaves the
    decoder and the wide buffer exactly as [output_raw] on that one byte
    does; on the end-of-file value it changes nothing and returns 0. *)
Theorem overflow_as_output_raw (ch : Z) (st : utf8_on_wide_out) :
  (ch <> eof -> snd (overflow ch st) = snd (output_raw [ch] st)) /\
  overflow eof st = (0, st).
Proof.
  split; [| reflexivity]. intros Hne. unfold overflow.
  replace (ch =? eof) with false by (symmetry; apply Z.eqb_neq; exact Hne).
  cbn [negb]. rewrite (output_raw_uchar [ch]). cbn [map].
  destruct (Z.land (to_uchar ch) 0x80 =? 0x00) eqn:E.
  - unfold output_raw. cbn [while_loop]. unfold loop_body.
    rewrite to_uchar_idem, E.
    destruct (output (to_uchar ch) (m_out st)) as [[|] out']; reflexivity.
  - destruct (output_raw [to_uchar ch] st). reflexivity.
Qed.

(** X3: on a byte with its top bit set [overflow] returns 0, never the
    end-of-file value, also when that byte completes a code point and the
    wide buffer refuses it; on an ASCII byte it returns the end-of-file
    value exactly when the write is refused. *)
Theorem overflow_result (ch : Z) (st : utf8_on_wide_out) :
  ch <> eof ->
  (0x80 <= to_uchar ch -> fst (overflow ch st) = 0) /\
  (to_uchar ch < 0x80 ->
   fst (overflow ch st) = if fst (output (to_uchar ch) (m_out st)) then 0 else eof).
Proof.
  intros Hne. pose proof (to_uchar_range ch) as Hb. byte_facts (to_uchar ch) Hb.
  unfold overflow.
  replace (ch =? eof) with false by (symmetry; apply Z.eqb_neq; exact Hne).
  cbn [negb]. rewrite M80. split; intros H.
  - replace (to_uchar ch <? 0x80) with false by (symmetry; apply Z.ltb_ge; lia).
    unfold output_raw. cbn [while_loop].
    destruct (loop_body (to_uchar ch) st) as [[|] st']; reflexivity.
  - replace (to_uchar ch <? 0x80) with true by (symmetry; apply Z.ltb_lt; lia).
    destruct (output (to_uchar ch) (m_out st)) as [[|] out']; reflexivity.
Qed.

(** X4: an iteration of the loop writes to the wide buffer only for an
    ASCII byte or for a continuation byte that arrives when exactly one
    is missing; every other byte leaves the wide buffer untouched and the
    loop goes on. *)
Theorem loop_body_writes_only_on_completion (c : Z) (st : utf8_on_wide_out) :
  0x80 <= to_uchar c ->
  is_cont (to_uchar c) = false \/ left st <> 1 ->
  fst (loop_body c st) = true /\ m_out (snd (loop_body c st)) = m_out st.
Proof.
  intros Hhi Hno. pose proof (to_uchar_range c) as Hb.
  byte_facts (to_uchar c) Hb. unfold loop_body, classify.
  rewrite M80, MC0.
  replace (to_uchar c <? 0x80) with false by (symmetry; apply Z.ltb_ge; lia).
  destruct (is_cont (to_uchar c)) eqn:Ec; cbn [andb].
  - destruct Hno as [Hno | Hno]; [discriminate|].
    destruct (Z.ltb_spec 0 (left st)) as [Hpos | Hneg].
    + replace (left st - 1 =? 0) with false by (symmetry; apply Z.eqb_neq; lia).
      split; reflexivity.
    + unfold is_cont in Ec. apply andb_prop in Ec. destruct Ec as [_ Ec].
      apply Z.ltb_lt in Ec. rewrite ME0, MF0, MF8.
      replace (0xC0 <=? to_uchar c) with false by (symmetry; apply Z.leb_gt; lia).
      replace (0xE0 <=? to_uchar c) with false by (symmetry; apply Z.leb_gt; lia).
      replace (0xF0 <=? to_uchar c) with false by (symmetry; apply Z.leb_gt; lia).
      cbn. split; reflexivity.
  - destruct (Z.land (to_uchar c) 0xE0 =? 0xC0); [cbn; split; reflexivity|].
    destruct (Z.land (to_uchar c) 0xF0 =? 0xE0); [cbn; split; reflexivity|].
    destruct (Z.land (to_uchar c) 0xF8 =? 0xF0); cbn; split; reflexivity.
Qed.

Lemma is_scalar_range p :
  is_scalar p = true -> 0 <= p <= 0xD7FF \/ 0xE000 <= p <= 0x10FFFF.
Proof.
  unfold is_scalar.
  destruct (Z.leb_spec 0 p), (Z.leb_spec p 0xD7FF), (Z.leb_spec 0xE000 p),
    (Z.leb_spec p 0x10FFFF); cbn; intros Hs; try discriminate; lia.
Qed.

(** The emission block on a scalar value whose writes are accepted: its
    wide units on this platform go out. *)
Lemma emit_scalar p (out : wide_out) :
  2 <= wchar_size -> is_scalar p = true -> fst (emit p out) = true ->
  left (snd (emit p out)) = -1 /\
  sent (m_out (snd (emit p out))) = sent out ++ wide_units wchar_size p.
Proof.
  intros Hw Hs Hok. apply is_scalar_range in Hs. split; [apply emit_left|].
  unfold wide_units, utf16_encode.
  destruct (Z.leb_spec 4 wchar_size) as [H4 | H4].
  - rewrite emit_single by lia. cbn [snd m_out].
    rewrite output_sent, to_char_type_wide by lia. reflexivity.
  - destruct (Z.ltb_spec p 0x10000) as [Hb | Hb].
    + rewrite emit_single by lia. cbn [snd m_out].
      rewrite output_sent, to_char_type_small by lia. reflexivity.
    + assert (Hp : 0x10000 <= p <= 0x10FFFF) by lia.
      pose proof (surrogate_range p Hp) as [Hh Hl].
      rewrite emit_pair in Hok |- * by assumption.
      destruct (fst (output (high_surrogate p) out)); [| discriminate].
      cbn [snd m_out]. rewrite !output_sent, !to_char_type_small by lia.
      rewrite <- app_assoc. reflexivity.
Qed.

(** The loop body over the encoding of one scalar value. *)
Lemma steps_encoding p (st : utf8_on_wide_out) :
  2 <= wchar_size -> is_scalar p = true -> quiet (utf8_encode p) st = true ->
  left (steps (utf8_encode p) st) = -1 /\
  sent (m_out (steps (utf8_encode p) st)) = sent (m_out st) ++ wide_units wchar_size p.
Proof.
  intros Hw Hs Hq. pose proof (is_scalar_range p Hs) as Hr.
  destruct (Z.ltb_spec p 0x80) as [Hlt | Hge].
  - assert (Henc : utf8_encode p = [p])
      by (unfold utf8_encode; replace (p <? 0x80) with true
            by (symmetry; apply Z.ltb_lt; lia); reflexivity).
    rewrite Henc. cbn [steps].
    rewrite loop_body_ascii
      by (unfold is_ascii; apply andb_true_intro; split;
          [apply Z.leb_le | apply Z.ltb_lt]; lia).
    cbn [snd left m_out]. split; [reflexivity|].
    rewrite output_sent, to_char_type_small by lia.
    unfold wide_units, utf16_encode.
    replace (p <? 0x10000) with true by (symmetry; apply Z.ltb_lt; lia).
    destruct (4 <=? wchar_size); reflexivity.
  - destruct (encode_sequence p) as (lead & conts & Henc & Hneed & Hc & Hlen & Hpay); [lia|].
    rewrite Henc in Hq |- *.
    destruct (complete_sequence lead conts st Hneed Hc Hlen)
      as (init & last & -> & Hqi & _ & Hlast).
    change (lead :: init ++ [last]) with ((lead :: init) ++ [last]) in Hq |- *.
    rewrite steps_snoc, Hlast, Hpay.
    rewrite quiet_app, Hqi in Hq. cbn [quiet andb] in Hq.
    rewrite andb_true_r, Hlast, Hpay in Hq.
    apply emit_scalar; assumption.
Qed.

Lemma steps_string cps (st : utf8_on_wide_out) :
  2 <= wchar_size -> forallb is_scalar cps = true ->
  quiet (concat (map utf8_encode cps)) st = true ->
  sent (m_out (steps (concat (map utf8_encode cps)) st))
  = sent (m_out st) ++ concat (map (wide_units wchar_size) cps).
Proof.
  intros Hw. revert st. induction cps as [| p cps IH]; intros st Hs Hq.
  - cbn. symmetry. apply app_nil_r.
  - cbn [forallb] in Hs. apply andb_prop in Hs. destruct Hs as [Hp Hs].
    cbn [map concat] in *. rewrite quiet_app in Hq. apply andb_prop in Hq.
    destruct Hq as [Hq1 Hq2]. rewrite steps_app, IH by assumption.
    destruct (steps_encoding p st Hw Hp Hq1) as [_ ->].
    rewrite <- app_assoc. reflexivity.
Qed.

(** X5: decoding undoes encoding on whole strings. The UTF-8 encodings of
    a list of scalar values in a row, fed in one call or cut into calls in
    any way, bytes of one encoding apart included, hand over the UTF-16
    encoding of the list where [wchar_t] is narrower than four bytes and
    the list itself where it is not, provided the wide buffer refuses no
    write. *)
Theorem decode_of_encode (cps : list Z) (chunks : list (list Z)) (st : utf8_on_wide_out) :
  2 <= wchar_size ->
  forallb is_scalar cps = true ->
  concat chunks = concat (map utf8_encode cps) ->
  quiet (concat chunks) st = true ->
  sent (m_out (feed chunks st))
  = sent (m_out st) ++ concat (map (wide_units wchar_size) cps) /\
  sent (m_out (snd (output_raw (concat chunks) st)))
  = sent (m_out st) ++ concat (map (wide_units wchar_size) cps).
Proof.
  intros Hw Hs Hcat Hq.
  rewrite feed_quiet, output_raw_state_quiet by exact Hq.
  rewrite Hcat in Hq |- *. split; apply steps_string; assumption.
Qed.

(** X6: the decoder does not ask for the shortest encoding. Any lead byte
    with the continuation bytes it announces hands over its payload when
    that is a BMP value outside the surrogates, overlong forms such as
    [C0 80] for 0 included. *)
Theorem overlong_forms_are_decoded (lead : Z) (conts : list Z) (st : utf8_on_wide_out) :
  2 <= wchar_size ->
  0 < lead_need lead -> forallb is_cont conts = true ->
  Z.of_nat (length conts) = lead_need lead ->
  payload lead conts <= 0xD7FF \/ 0xE000 <= payload lead conts <= 0xFFFF ->
  fst (output_raw (lead :: conts) st) = 1 + lead_need lead /\
  left (snd (output_raw (lead :: conts) st)) = -1 /\
  sent (m_out (snd (output_raw (lead :: conts) st)))
  = sent (m_out st) ++ [payload lead conts].
Proof.
  intros Hw Hneed Hc Hlen Hv.
  rewrite (output_raw_sequence lead conts st Hneed Hc Hlen).
  rewrite emit_single by lia. cbn [fst snd left m_out].
  split; [reflexivity|]. split; [reflexivity|].
  rewrite output_sent, to_char_type_small; [reflexivity | exact Hw |].
  pose proof (payload_range lead conts). lia.
Qed.

(** X7: a sequence cut short by a new lead byte is dropped without a
    trace: the call goes on with the new sequence as if the bytes before
    it had not been there, and only counts them. *)
Theorem truncated_by_lead (lead1 : Z) (conts1 : list Z) (lead2 : Z) (conts2 : list Z)
  (st : utf8_on_wide_out) :
  0 < lead_need lead1 -> forallb is_cont conts1 = true ->
  Z.of_nat (length conts1) < lead_need lead1 ->
  0 < lead_need lead2 -> forallb is_cont conts2 = true ->
  Z.of_nat (length conts2) = lead_need lead2 ->
  output_raw ((lead1 :: conts1) ++ lead2 :: conts2) st =
    (1 + Z.of_nat (length conts1) + fst (output_raw (lead2 :: conts2) st),
     snd (output_raw (lead2 :: conts2) st)).
Proof.
  intros Hn1 Hc1 Hl1 Hn2 Hc2 Hl2.
  pose proof (lead_need_range lead1 Hn1) as [_ H31].
  pose proof (lead_need_range lead2 Hn2) as [_ H32].
  destruct (partial_sequence lead1 conts1 st Hn1 Hc1 Hl1) as [Hq Hs].
  rewrite (output_raw_sequence lead2 conts2 st Hn2 Hc2 Hl2). cbn [fst snd].
  unfold output_raw. rewrite while_loop_app by exact Hq. rewrite Hs.
  destruct (complete_sequence lead2 conts2
              (mk_decoder (lead_need lead1 - Z.of_nat (length conts1))
                 (payload lead1 conts1) (m_out st)) Hn2 Hc2 Hl2)
    as (init & last & -> & Hq2 & _ & Hlast).
  change (lead2 :: init ++ [last]) with ((lead2 :: init) ++ [last]).
  rewrite while_loop_last by exact Hq2. rewrite steps_snoc, Hlast. cbn [m_out].
  rewrite length_app in Hl2. cbn [length] in Hl2 |- *.
  f_equal. rewrite to_int_small; lia.
Qed.

(** X8: while a sequence is in progress [point] stays below 2^15, so the
    shift [point << 6] of the next continuation byte never wraps in
    [uint32_t]. *)
Theorem pending_point_is_small (hist : list Z) (st : utf8_on_wide_out) :
  decoder_inv hist st -> 0 < left st ->
  0 <= point st < 2 ^ 15 /\
  to_uint32 (Z.shiftl (point st) 6) = point st * 64.
Proof.
  intros [_ Hprog] Hpos.
  destruct (Hprog Hpos) as (pre & lead & conts & _ & _ & Hlen & Hpt).
  assert (Hneed : 0 < lead_need lead) by lia.
  pose proof (lead_need_range lead Hneed) as [Hb H3].
  assert (Hsmall : 0 <= point st < 2 ^ 15).
  { rewrite Hpt. unfold payload.
    assert (Hlb : 0 <= lead_bits lead < 2 ^ (6 - lead_need lead)).
    { unfold lead_bits, lead_need in *.
      destruct (Z.leb_spec 0xC0 lead), (Z.ltb_spec lead 0xE0), (Z.leb_spec 0xE0 lead),
        (Z.ltb_spec lead 0xF0), (Z.leb_spec 0xF0 lead), (Z.ltb_spec lead 0xF8);
        cbn [andb] in *; try lia;
        match goal with |- context [lead mod ?k] => pose proof (Z.mod_pos_bound lead k) end;
        cbn; lia. }
    destruct conts as [| c1 [| c2 [| c3 conts]]]; cbn [length fold_left] in *.
    - split; [lia|]. eapply Z.lt_le_trans; [apply Hlb|].
      apply Z.pow_le_mono_r; lia.
    - pose proof (Z.mod_pos_bound c1 64).
      assert (Hcase : lead_need lead = 2 \/ lead_need lead = 3) by lia.
      destruct Hcase as [E | E]; rewrite E in Hlb; cbn in Hlb; lia.
    - pose proof (Z.mod_pos_bound c1 64). pose proof (Z.mod_pos_bound c2 64).
      assert (E : lead_need lead = 3) by lia.
      rewrite E in Hlb. cbn in Hlb. lia.
    - lia. }
  split; [exact Hsmall|].
  rewrite Z.shiftl_mul_pow2 by lia. unfold to_uint32.
  rewrite Z.mod_small; lia.
Qed.

End DecoderMore.

(** * More on the guard *)

(** The constructor on a translating platform, on streams that have plain
    buffers of their own. *)
Lemma ctor_plain ps :
  plain_streams ps ->
  con_transcoder_ctor true ps =
    Some (mk_guard (cout_rdbuf ps) (cerr_rdbuf ps),
          mk_process
            (heap ps ++ [utf8_on_wide_out_obj (wcout_rdbuf ps);
                         utf8_on_wide_out_obj (wcerr_rdbuf ps)])
            (S (length (heap ps))) (S (S (length (heap ps))))
            (wcout_rdbuf ps) (wcerr_rdbuf ps) (wcout_loc ps) (wcerr_loc ps) (c_locale ps)
            (if prepared ps then stdout_mode ps else O_U16TEXT)
            (if prepared ps then stderr_mode ps else O_U16TEXT)
            true
            (if prepared ps then prepare_calls ps else S (prepare_calls ps))
            (cerr_rdbuf ps :: cout_rdbuf ps :: synced ps)).
Proof.
  intros [H1 H2]. destruct ps as [h co ce wo we lo le cl mo me pr pc sy].
  cbn [heap cout_rdbuf cerr_rdbuf wcout_rdbuf wcerr_rdbuf wcout_loc wcerr_loc
         c_locale stdout_mode stderr_mode prepared prepare_calls synced] in *.
  pose proof (deref_app _ [utf8_on_wide_out_obj wo] _ _ H2) as H2'.
  unfold con_transcoder_ctor, prepare_console, set_prepared. cbn [negb].
  destruct pr;
    cbn [negb heap cout_rdbuf cerr_rdbuf wcout_rdbuf wcerr_rdbuf wcout_loc wcerr_loc
           c_locale stdout_mode stderr_mode prepared prepare_calls synced];
    rewrite (is_decoder_live _ _ _ H1); cbn [negb];
    unfold streambuf_pubsync, new_utf8_on_wide_out, set_cout_rdbuf;
    cbn [heap cout_rdbuf cerr_rdbuf wcout_rdbuf wcerr_rdbuf wcout_loc wcerr_loc
           c_locale stdout_mode stderr_mode prepared prepare_calls synced];
    rewrite H1;
    cbn [heap cout_rdbuf cerr_rdbuf wcout_rdbuf wcerr_rdbuf wcout_loc wcerr_loc
           c_locale stdout_mode stderr_mode prepared prepare_calls synced];
    rewrite (is_decoder_live _ _ _ H2'); cbn [negb];
    unfold set_cerr_rdbuf;
    cbn [heap cout_rdbuf cerr_rdbuf wcout_rdbuf wcerr_rdbuf wcout_loc wcerr_loc
           c_locale stdout_mode stderr_mode prepared prepare_calls synced];
    rewrite H2';
    cbn [heap cout_rdbuf cerr_rdbuf wcout_rdbuf wcerr_rdbuf wcout_loc wcerr_loc
           c_locale stdout_mode stderr_mode prepared prepare_calls synced];
    rewrite length_app, Nat.add_1_r, <- app_assoc; reflexivity.
Qed.

Lemma plain_not_null h p : deref h p = Some other_streambuf -> Nat.eqb p nullptr = false.
Proof. apply live_not_null. Qed.

(** A guard constructed and destroyed at once on plain streams. *)
Lemma ctor_dtor_plain ps :
  plain_streams ps ->
  exists g ps',
    con_transcoder_ctor true ps = Some (g, ps') /\
    cout_rdbuf (con_transcoder_dtor g ps') = cout_rdbuf ps /\
    cerr_rdbuf (con_transcoder_dtor g ps') = cerr_rdbuf ps /\
    heap (con_transcoder_dtor g ps')
    = heap ps ++ [utf8_on_wide_out_obj (wcout_rdbuf ps);
                  utf8_on_wide_out_obj (wcerr_rdbuf ps)] /\
    prepared (con_transcoder_dtor g ps') = true /\
    stdout_mode (con_transcoder_dtor g ps')
    = (if prepared ps then stdout_mode ps else O_U16TEXT) /\
    stderr_mode (con_transcoder_dtor g ps')
    = (if prepared ps then stderr_mode ps else O_U16TEXT).
Proof.
  intros Hp. pose proof Hp as [H1 H2]. eexists _, _.
  split; [apply ctor_plain, Hp|].
  unfold con_transcoder_dtor. cbn [m_coutBuf m_cerrBuf].
  rewrite (plain_not_null _ _ H1), (plain_not_null _ _ H2). cbn [negb].
  repeat split.
Qed.

(** X9: on a translating platform the constructor gives [cout] a new
    decoder that writes to the buffer of [wcout] and [cerr] another one
    that writes to the buffer of [wcerr], and the guard remembers the two
    buffers it took off the streams. *)
Theorem ctor_wires_streams_to_wide_counterparts (ps : process) :
  plain_streams ps ->
  exists g ps',
    con_transcoder_ctor true ps = Some (g, ps') /\
    deref (heap ps') (cout_rdbuf ps') = Some (utf8_on_wide_out_obj (wcout_rdbuf ps)) /\
    deref (heap ps') (cerr_rdbuf ps') = Some (utf8_on_wide_out_obj (wcerr_rdbuf ps)) /\
    cout_rdbuf ps' <> cerr_rdbuf ps' /\
    m_coutBuf g = cout_rdbuf ps /\ m_cerrBuf g = cerr_rdbuf ps.
Proof.
  intros Hp. eexists _, _. split; [apply ctor_plain, Hp|].
  cbn [heap cout_rdbuf cerr_rdbuf m_coutBuf m_cerrBuf].
  split; [| split; [| split; [| split; reflexivity]]].
  - change [utf8_on_wide_out_obj (wcout_rdbuf ps); utf8_on_wide_out_obj (wcerr_rdbuf ps)]
      with ([utf8_on_wide_out_obj (wcout_rdbuf ps)] ++ [utf8_on_wide_out_obj (wcerr_rdbuf ps)]).
    rewrite app_assoc. apply deref_app, deref_new.
  - change [utf8_on_wide_out_obj (wcout_rdbuf ps); utf8_on_wide_out_obj (wcerr_rdbuf ps)]
      with ([utf8_on_wide_out_obj (wcout_rdbuf ps)] ++ [utf8_on_wide_out_obj (wcerr_rdbuf ps)]).
    rewrite app_assoc.
    replace (S (S (length (heap ps))))
      with (S (length (heap ps ++ [utf8_on_wide_out_obj (wcout_rdbuf ps)])))
      by (rewrite length_app; cbn; lia).
    apply deref_new.
  - lia.
Qed.

(** X10: the constructor calls [pubsync] once on each buffer it takes off
    a stream, on that of [cout] first and on that of [cerr] next, and on
    nothing else. *)
Theorem ctor_syncs_replaced_buffers (ps : process) :
  plain_streams ps ->
  exists g ps',
    con_transcoder_ctor true ps = Some (g, ps') /\
    synced ps' = cerr_rdbuf ps :: cout_rdbuf ps :: synced ps.
Proof.
  intros Hp. eexists _, _. split; [apply ctor_plain, Hp | reflexivity].
Qed.

(** X11: the destructor restores the two stream buffers and nothing else.
    After a guard was constructed and destroyed the streams have their
    buffers back, but the two decoders are still allocated, [prepared]
    stays set and the console stays in the mode [prepare_console] gave
    it. *)
Theorem dtor_restores_buffers_only (ps : process) :
  plain_streams ps ->
  exists g ps',
    con_transcoder_ctor true ps = Some (g, ps') /\
    cout_rdbuf (con_transcoder_dtor g ps') = cout_rdbuf ps /\
    cerr_rdbuf (con_transcoder_dtor g ps') = cerr_rdbuf ps /\
    length (heap (con_transcoder_dtor g ps')) = (length (heap ps) + 2)%nat /\
    prepared (con_transcoder_dtor g ps') = true /\
    (prepared ps = false ->
     stdout_mode (con_transcoder_dtor g ps') = O_U16TEXT /\
     stderr_mode (con_transcoder_dtor g ps') = O_U16TEXT).
Proof.
  intros Hp.
  destruct (ctor_dtor_plain ps Hp) as (g & ps' & Hc & H1 & H2 & Hh & Hpr & Ho & He).
  exists g, ps'. split; [exact Hc|]. split; [exact H1|]. split; [exact H2|].
  split; [rewrite Hh, length_app; reflexivity|]. split; [exact Hpr|].
  intros E. rewrite E in Ho, He. auto.
Qed.

(** X12: every guard that is constructed on plain streams and destroyed
    leaves two decoder objects behind: after [n] such guards in a row the
    streams have their buffers, and the heap holds [2 * n] objects more
    than before. *)
Theorem guard_cycles_leak (n : nat) (ps : process) :
  plain_streams ps ->
  exists ps',
    run true (guard_cycles n) ([], ps) = Some ([], ps') /\
    length (heap ps') = (length (heap ps) + 2 * n)%nat /\
    cout_rdbuf ps' = cout_rdbuf ps /\ cerr_rdbuf ps' = cerr_rdbuf ps.
Proof.
  revert ps. induction n as [| n IH]; intros ps Hp.
  - exists ps. cbn. repeat split. lia.
  - destruct (ctor_dtor_plain ps Hp) as (g & ps1 & Hc & H1 & H2 & Hh & _).
    assert (Hp1 : plain_streams (con_transcoder_dtor g ps1)).
    { destruct Hp as [P1 P2]. split; rewrite Hh.
      - rewrite H1. apply deref_app, P1.
      - rewrite H2. apply deref_app, P2. }
    destruct (IH _ Hp1) as (ps' & Hr & Hl & Ho & He).
    exists ps'. split; [| split; [| split]].
    + unfold guard_cycles in *. cbn [repeat concat app run step].
      rewrite Hc. cbn [nth_error]. unfold remove_nth. cbn [firstn skipn app].
      exact Hr.
    + rewrite Hl, Hh, length_app. cbn [length]. lia.
    + rewrite Ho. exact H1.
    + rewrite He. exact H2.
Qed.

(** X13: an inner guard does not keep the streams redirected. When the
    outer guard is destroyed first the streams have their buffers back at
    once, with the inner guard alive, and the destructor of the inner
    guard changes nothing afterwards. *)
Theorem outer_guard_destroyed_first (ps : process) :
  live_streams ps ->
  exists outer ps1 inner ps2,
    con_transcoder_ctor true ps = Some (outer, ps1) /\
    con_transcoder_ctor true ps1 = Some (inner, ps2) /\
    cout_rdbuf (con_transcoder_dtor outer ps2) = cout_rdbuf ps /\
    cerr_rdbuf (con_transcoder_dtor outer ps2) = cerr_rdbuf ps /\
    con_transcoder_dtor inner (con_transcoder_dtor outer ps2)
    = con_transcoder_dtor outer ps2.
Proof.
  intros [L1 L2].
  destruct (deref (heap ps) (cout_rdbuf ps)) as [o1 |] eqn:H1; [| congruence].
  destruct (deref (heap ps) (cerr_rdbuf ps)) as [o2 |] eqn:H2; [| congruence].
  destruct (ctor_translating true ps o1 o2 eq_refl H1 H2)
    as (g & ps' & Hc & Hp & _ & _ & D1 & D2 & G1 & G2 & K1 & K2).
  exists g, ps', (mk_guard nullptr nullptr), ps'.
  split; [exact Hc|]. split; [apply ctor_idle; assumption|].
  rewrite dtor_cout, dtor_cerr, G1, G2. split; [| split; [| reflexivity]].
  - destruct o1; [rewrite (live_not_null _ _ _ H1); reflexivity | exact K1].
  - destruct o2; [rewrite (live_not_null _ _ _ H2); reflexivity | exact K2].
Qed.

(** X14: move assignment overwrites what the target remembers without
    restoring it. When an outer guard that took the buffers off the
    streams is assigned from an inner guard that holds nothing, no guard
    remembers the buffers any more: after both are destroyed the streams
    still write to the decoders. *)
Theorem move_assign_drops_restoration (ps : process) :
  plain_streams ps ->
  exists outer ps1 inner ps2,
    con_transcoder_ctor true ps = Some (outer, ps1) /\
    con_transcoder_ctor true ps1 = Some (inner, ps2) /\
    con_transcoder_dtor (fst (con_transcoder_move_assign outer inner))
      (con_transcoder_dtor (snd (con_transcoder_move_assign outer inner)) ps2) = ps2 /\
    is_utf8_on_wide_out (heap ps2) (cout_rdbuf ps2) = Some true /\
    is_utf8_on_wide_out (heap ps2) (cerr_rdbuf ps2) = Some true /\
    cout_rdbuf ps2 <> cout_rdbuf ps /\ cerr_rdbuf ps2 <> cerr_rdbuf ps.
Proof.
  intros Hp. pose proof Hp as [H1 H2].
  destruct (ctor_translating true ps _ _ eq_refl H1 H2)
    as (g & ps' & Hc & Hpr & _ & _ & D1 & D2 & _).
  exists g, ps', (mk_guard nullptr nullptr), ps'.
  split; [exact Hc|]. split; [apply ctor_idle; assumption|].
  split; [reflexivity|]. split; [exact D1|]. split; [exact D2|].
  rewrite (ctor_plain ps Hp) in Hc. injection Hc as _ <-.
  cbn [cout_rdbuf cerr_rdbuf].
  assert (B1 : (S (length (heap ps)) <= length (heap ps))%nat -> False) by lia.
  destruct (cout_rdbuf ps) as [| i] eqn:E1; [discriminate|].
  destruct (cerr_rdbuf ps) as [| j] eqn:E2; [discriminate|].
  cbn [deref] in H1, H2.
  assert (Hi : (i < length (heap ps))%nat) by (apply nth_error_Some; congruence).
  assert (Hj : (j < length (heap ps))%nat) by (apply nth_error_Some; congruence).
  split; lia.
Qed.

(** X18: [make_utf8_output] keeps the streams redirected only where the
    copy of the returned guard is elided. Where it is not, the destructor
    of the moved-from temporary puts the buffers back before the caller
    has the guard: the streams are as they were, and the guard returned
    remembers buffers that are installed already. *)
Theorem make_utf8_output_without_elision (ps : process) :
  plain_streams ps ->
  make_utf8_output true true ps = con_transcoder_ctor true ps /\
  exists g ps',
    make_utf8_output true false ps = Some (g, ps') /\
    cout_rdbuf ps' = cout_rdbuf ps /\ cerr_rdbuf ps' = cerr_rdbuf ps /\
    m_coutBuf g = cout_rdbuf ps /\ m_cerrBuf g = cerr_rdbuf ps.
Proof.
  intros Hp. pose proof Hp as [H1 H2]. unfold make_utf8_output.
  rewrite (ctor_plain ps Hp). split; [reflexivity|].
  eexists _, _. split; [reflexivity|].
  unfold con_transcoder_move_ctor, con_transcoder_dtor. cbn [m_coutBuf m_cerrBuf].
  rewrite (plain_not_null _ _ H1), (plain_not_null _ _ H2). cbn [negb].
  repeat split.
Qed.

(** X15: on a non-translating platform no program over guards changes the
    process: whatever it constructs, moves and destroys, every step is
    defined, the process is as it was and every guard holds two null
    pointers. *)
Theorem no_translation_no_effect (prog : list action) (ps : process) :
  exists gs,
    run false prog ([], ps) = Some (gs, ps) /\
    Forall (fun g => g = mk_guard nullptr nullptr) gs.
Proof.
  assert (H : forall gs, Forall (fun g => g = mk_guard nullptr nullptr) gs ->
            exists gs', run false prog (gs, ps) = Some (gs', ps) /\
                        Forall (fun g => g = mk_guard nullptr nullptr) gs').
  { induction prog as [| a prog IH]; intros gs Hgs.
    - exists gs. split; [reflexivity | exact Hgs].
    - cbn [run]. destruct a as [| i | i | i j]; cbn [step].
      + cbn. apply IH. apply Forall_app. split; [exact Hgs|]. repeat constructor.
      + destruct (nth_error gs i) as [g |] eqn:E; [| apply IH, Hgs].
        assert (Hg : g = mk_guard nullptr nullptr).
        { rewrite Forall_forall in Hgs. apply Hgs. eapply nth_error_In, E. }
        subst g. change (con_transcoder_dtor (mk_guard nullptr nullptr) ps) with ps.
        apply IH. apply Forall_remove_nth, Hgs.
      + destruct (nth_error gs i) as [g |] eqn:E; [| apply IH, Hgs].
        assert (Hg : g = mk_guard nullptr nullptr).
        { rewrite Forall_forall in Hgs. apply Hgs. eapply nth_error_In, E. }
        subst g. cbn. apply IH. apply Forall_app.
        split; [apply Forall_replace_nth; auto | repeat constructor].
      + destruct (nth_error gs i) as [gi |] eqn:Ei;
          [destruct (nth_error gs j) as [gj |] eqn:Ej|]; try (apply IH, Hgs).
        assert (Hg : gj = mk_guard nullptr nullptr).
        { rewrite Forall_forall in Hgs. apply Hgs. eapply nth_error_In, Ej. }
        subst gj. cbn. apply IH.
        apply Forall_replace_nth; [reflexivity|]. apply Forall_replace_nth; auto. }
  apply H. constructor.
Qed.

(** * Calls of the decoder in a row *)

Section DecoderCalls.

Context {W : wide_streambuf}.



(** X16: as long as no write is refused it makes no difference how a
    byte stream is cut into calls: the decoder and the wide buffer end up
    exactly as after one call on the whole stream, malformed input
    included. *)
Theorem fragmentation_is_invisible (chunks : list (list Z)) (st : utf8_on_wide_out) :
  quiet (concat chunks) st = true ->
  feed chunks st = snd (output_raw (concat chunks) st).
Proof.
  intros Hq. rewrite feed_quiet, output_raw_state_quiet by exact Hq. reflexivity.
Qed.


End DecoderCalls.

(** ** The further statements at work *)

Lemma output_raw_count_witness :
  1 <= fst (@output_raw bounded16 [0x41; 0x42] (utf8_on_wide_out_ctor (fresh16 0) 0)) <= 2.
Proof.
  destruct (@output_raw_count bounded16 [0x41; 0x42]
              (utf8_on_wide_out_ctor (fresh16 0) 0)) as (Hb & Hne & _);
    [cbn; lia|].
  specialize (Hne ltac:(discriminate)). cbn [length] in Hb. lia.
Defined.

Lemma overflow_as_output_raw_witness :
  snd (@overflow bounded16 0x41 (utf8_on_wide_out_ctor (fresh16 4) 0))
  = snd (@output_raw bounded16 [0x41] (utf8_on_wide_out_ctor (fresh16 4) 0)).
Proof.
  apply (proj1 (@overflow_as_output_raw bounded16 0x41
                  (utf8_on_wide_out_ctor (fresh16 4) 0))).
  unfold eof. lia.
Defined.

Lemma overflow_result_witness :
  0x80 <> eof /\
  fst (@overflow bounded16 0x80
         (@mk_decoder bounded16 1 0x7FF (fresh16 0))) = 0.
Proof.
  assert (Hne : 0x80 <> eof) by (unfold eof; lia).
  split; [exact Hne|].
  apply (proj1 (@overflow_result bounded16 0x80
                  (@mk_decoder bounded16 1 0x7FF (fresh16 0)) Hne)).
  cbn. lia.
Defined.

Lemma loop_body_writes_only_witness :
  fst (@loop_body bounded16 0xB8 (@mk_decoder bounded16 2 4 (fresh16 0))) = true /\
  m_out (snd (@loop_body bounded16 0xB8 (@mk_decoder bounded16 2 4 (fresh16 0))))
  = fresh16 0.
Proof.
  apply (@loop_body_writes_only_on_completion bounded16 0xB8
           (@mk_decoder bounded16 2 4 (fresh16 0))).
  - cbn. lia.
  - right. cbn. lia.
Defined.

Lemma decode_of_encode_witness :
  sent (m_out (@feed bounded16 [[0x41; 0xE4]; [0xB8; 0x96; 0xF0; 0x9F]; [0x98; 0x80]]
                 (utf8_on_wide_out_ctor (fresh16 8) 0)))
  = [0x41; 0x4E16; 0xD83D; 0xDE00].
Proof.
  destruct (@decode_of_encode bounded16 [0x41; 0x4E16; 0x1F600]
              [[0x41; 0xE4]; [0xB8; 0x96; 0xF0; 0x9F]; [0x98; 0x80]]
              (utf8_on_wide_out_ctor (fresh16 8) 0)) as [H _].
  - cbn. lia.
  - reflexivity.
  - reflexivity.
  - reflexivity.
  - exact H.
Defined.

Lemma overlong_forms_witness :
  fst (@output_raw bounded16 [0xC0; 0x80] (utf8_on_wide_out_ctor (fresh16 4) 0)) = 2 /\
  sent (m_out (snd (@output_raw bounded16 [0xC0; 0x80]
                      (utf8_on_wide_out_ctor (fresh16 4) 0)))) = [0].
Proof.
  destruct (@overlong_forms_are_decoded bounded16 0xC0 [0x80]
              (utf8_on_wide_out_ctor (fresh16 4) 0)) as (H1 & _ & H2).
  - cbn. lia.
  - cbn. lia.
  - reflexivity.
  - reflexivity.
  - left. cbn. lia.
  - split; [exact H1 | exact H2].
Defined.

Lemma truncated_by_lead_witness :
  @output_raw bounded16 ([0xE4; 0xB8] ++ [0xC3; 0xA9])
    (utf8_on_wide_out_ctor (fresh16 4) 0)
  = (4, @mk_decoder bounded16 (-1) 0xE9 (wide16 (mk_bounded 3 [0xE9]) [0xE9])).
Proof.
  rewrite (@truncated_by_lead bounded16 0xE4 [0xB8] 0xC3 [0xA9]
             (utf8_on_wide_out_ctor (fresh16 4) 0));
    [reflexivity | cbn; lia | reflexivity | cbn; lia | cbn; lia | reflexivity
     | reflexivity].
Defined.

Lemma pending_point_witness :
  0 <= point (snd (@loop_body bounded16 0xE4 (utf8_on_wide_out_ctor (fresh16 4) 0)))
  < 2 ^ 15.
Proof.
  apply (@pending_point_is_small bounded16 [0xE4]
           (snd (@loop_body bounded16 0xE4 (utf8_on_wide_out_ctor (fresh16 4) 0)))).
  - split; [cbn; auto|]. intros _. exists [], 0xE4, []. repeat split.
  - cbn. lia.
Defined.

Lemma fragmentation_witness :
  @feed bounded16 [[0x41; 0xE4]; [0xB8]; []; [0x96; 0x80]]
    (utf8_on_wide_out_ctor (fresh16 4) 0)
  = snd (@output_raw bounded16 [0x41; 0xE4; 0xB8; 0x96; 0x80]
           (utf8_on_wide_out_ctor (fresh16 4) 0)).
Proof.
  apply (@fragmentation_is_invisible bounded16 [[0x41; 0xE4]; [0xB8]; []; [0x96; 0x80]]
           (utf8_on_wide_out_ctor (fresh16 4) 0)).
  reflexivity.
Defined.


Lemma plain_process_start : plain_streams process_start.
Proof. split; reflexivity. Qed.

Lemma ctor_wires_witness :
  plain_streams process_start /\
  exists g ps',
    con_transcoder_ctor true process_start = Some (g, ps') /\
    deref (heap ps') (cout_rdbuf ps') = Some (utf8_on_wide_out_obj 1%nat) /\
    deref (heap ps') (cerr_rdbuf ps') = Some (utf8_on_wide_out_obj 2%nat).
Proof.
  split; [exact plain_process_start|].
  destruct (ctor_wires_streams_to_wide_counterparts process_start plain_process_start)
    as (g & ps' & Hc & H1 & H2 & _).
  exists g, ps'. auto.
Defined.

Lemma ctor_syncs_witness :
  plain_streams process_start /\
  exists g ps',
    con_transcoder_ctor true process_start = Some (g, ps') /\
    synced ps' = [2%nat; 1%nat].
Proof.
  split; [exact plain_process_start|].
  destruct (ctor_syncs_replaced_buffers process_start plain_process_start)
    as (g & ps' & Hc & Hs).
  exists g, ps'. auto.
Defined.

Lemma dtor_restores_witness :
  plain_streams process_start /\
  exists g ps',
    con_transcoder_ctor true process_start = Some (g, ps') /\
    cout_rdbuf (con_transcoder_dtor g ps') = 1%nat /\
    length (heap (con_transcoder_dtor g ps')) = 4%nat /\
    stdout_mode (con_transcoder_dtor g ps') = O_U16TEXT.
Proof.
  split; [exact plain_process_start|].
  destruct (dtor_restores_buffers_only process_start plain_process_start)
    as (g & ps' & Hc & H1 & _ & Hl & _ & Hm).
  exists g, ps'. destruct (Hm eq_refl) as [Ho _]. auto.
Defined.

Lemma guard_cycles_witness :
  plain_streams process_start /\
  exists ps',
    run true (guard_cycles 3) ([], process_start) = Some ([], ps') /\
    length (heap ps') = 8%nat.
Proof.
  split; [exact plain_process_start|].
  destruct (guard_cycles_leak 3 process_start plain_process_start)
    as (ps' & Hr & Hl & _).
  exists ps'. auto.
Defined.

Lemma outer_first_witness :
  live_streams process_start /\
  exists outer ps1 inner ps2,
    con_transcoder_ctor true process_start = Some (outer, ps1) /\
    con_transcoder_ctor true ps1 = Some (inner, ps2) /\
    cout_rdbuf (con_transcoder_dtor outer ps2) = 1%nat /\
    cerr_rdbuf (con_transcoder_dtor outer ps2) = 2%nat.
Proof.
  assert (HL : live_streams process_start) by (split; discriminate).
  split; [exact HL|].
  destruct (outer_guard_destroyed_first process_start HL)
    as (outer & ps1 & inner & ps2 & H1 & H2 & Hc & He & _).
  exists outer, ps1, inner, ps2. auto.
Defined.

Lemma move_assign_witness :
  plain_streams process_start /\
  exists outer ps1 inner ps2,
    con_transcoder_ctor true process_start = Some (outer, ps1) /\
    con_transcoder_ctor true ps1 = Some (inner, ps2) /\
    cout_rdbuf ps2 <> 1%nat /\
    con_transcoder_dtor (fst (con_transcoder_move_assign outer inner))
      (con_transcoder_dtor (snd (con_transcoder_move_assign outer inner)) ps2) = ps2.
Proof.
  split; [exact plain_process_start|].
  destruct (move_assign_drops_restoration process_start plain_process_start)
    as (outer & ps1 & inner & ps2 & H1 & H2 & Hd & _ & _ & Hc & _).
  exists outer, ps1, inner, ps2. auto.
Defined.

Lemma make_utf8_output_witness :
  plain_streams process_start /\
  exists g ps',
    make_utf8_output true false process_start = Some (g, ps') /\
    cout_rdbuf ps' = 1%nat /\ m_coutBuf g = 1%nat.
Proof.
  split; [exact plain_process_start|].
  destruct (make_utf8_output_without_elision process_start plain_process_start)
    as (_ & g & ps' & Hm & Hc & _ & Hg & _).
  exists g, ps'. auto.
Defined.
